(** * permit2-rpc-manager: the RPC selection, probing, caching and fallback engine

    A shallow embedding of the server package
    (latency-tester.ts, cache-manager.ts, chainlist-data-source.ts,
    rpc-selector.ts, permit2-rpc-manager.ts) and the properties of its
    specification, proved against that embedding.

    Conventions of the embedding:
    - a JS object used as a dictionary with URL keys ([Record<string, _>]) is an
      association list in property order; URL keys are never array indices, so
      property order is insertion order;
    - [Map<number, _>] and [Record<number, _>] keyed by chain id are [gmap Z _];
    - [async] methods are run to completion one after the other: a method is a
      function from the state before to its result and the state after;
    - everything the process does not control (the network, the clock, the KV
      store) is read from an explicit environment. *)

From stdpp Require Import gmap strings list pretty sorting.
From Stdlib Require Import ZArith Lia.

Local Open Scope string_scope.
Local Set Warnings "-register-all".

(** ** JavaScript values *)

(** The numbers the engine computes with: differences of [Date.now()] readings,
    array indices, and what [Infinity] turns them into. *)
Inductive JsNumber :=
  | Num (z : Z)
  | PosInfinity
  | NegInfinity
  | NaN.

(** [a - b] *)
Definition js_sub (a b : JsNumber) : JsNumber :=
  match a, b with
  | NaN, _ | _, NaN => NaN
  | Num x, Num y => Num (x - y)
  | Num _, PosInfinity => NegInfinity
  | Num _, NegInfinity => PosInfinity
  | PosInfinity, PosInfinity => NaN
  | PosInfinity, _ => PosInfinity
  | NegInfinity, NegInfinity => NaN
  | NegInfinity, _ => NegInfinity
  end.

(** [a < b] *)
Definition js_lt (a b : JsNumber) : bool :=
  match a, b with
  | NaN, _ | _, NaN => false
  | Num x, Num y => bool_decide (x < y)%Z
  | NegInfinity, NegInfinity => false
  | NegInfinity, _ => true
  | _, NegInfinity => false
  | PosInfinity, _ => false
  | Num _, PosInfinity => true
  end.

(** [a > 0], the test [Array.prototype.sort] applies to a comparator's value
    to decide that the first argument goes after the second;
    [NaN] counts as [+0]. *)
Definition js_positive (v : JsNumber) : bool := js_lt (Num 0) v.

(** [Array.prototype.sort(comparefn)].  The sort is stable (ECMAScript 2019),
    so for a consistent comparator its result is the stable sorted
    arrangement, which insertion from the right computes: an element moves
    past exactly the elements it must go after.  That arrangement is unique
    ([Array_sort_characterized] below), whatever algorithm the engine runs. *)
Section ArraySort.
Context {A : Type} (comparefn : A → A → JsNumber).

Fixpoint sort_insert (x : A) (sorted : list A) : list A :=
  match sorted with
  | [] => [x]
  | y :: rest =>
      if js_positive (comparefn x y) then y :: sort_insert x rest
      else x :: y :: rest
  end.

Definition Array_sort (l : list A) : list A := foldr sort_insert [] l.
End ArraySort.

(** [Array.prototype.indexOf]: the first position, or [-1]. *)
Fixpoint Array_indexOf_from {A} `{EqDecision A} (i : Z) (l : list A) (x : A) : Z :=
  match l with
  | [] => (-1)%Z
  | y :: rest => if decide (y = x) then i else Array_indexOf_from (i + 1)%Z rest x
  end.

Definition Array_indexOf {A} `{EqDecision A} (l : list A) (x : A) : Z :=
  Array_indexOf_from 0%Z l x.

(** A JS object with string keys that are not array indices: properties in
    insertion order.  [obj[k] = v] overwrites in place or appends. *)
Section Record.
Context {V : Type}.

Definition JsRecord := list (string * V).

Fixpoint Record_get (obj : JsRecord) (k : string) : option V :=
  match obj with
  | [] => None
  | (k', v) :: rest => if decide (k' = k) then Some v else Record_get rest k
  end.

Fixpoint Record_set (obj : JsRecord) (k : string) (v : V) : JsRecord :=
  match obj with
  | [] => [(k, v)]
  | (k', v') :: rest =>
      if decide (k' = k) then (k, v) :: rest else (k', v') :: Record_set rest k v
  end.

Definition Object_keys (obj : JsRecord) : list string := obj.*1.
Definition Object_values (obj : JsRecord) : list V := obj.*2.
End Record.
Arguments JsRecord : clear implicits.

(** A key written in decimal digits only. The array indices, which an object
    enumerates first and in numeric order whenever they were set, are such
    keys; every other string key is enumerated in the order of creation. *)
Definition isDigit (c : Ascii.ascii) : bool :=
  (48 <=? Ascii.nat_of_ascii c)%nat && (Ascii.nat_of_ascii c <=? 57)%nat.

Definition digitsOnly (s : string) : bool :=
  negb (String.eqb s "") && forallb isDigit (String.list_ascii_of_string s).

(** ** latency-tester.ts: the data *)

Inductive LatencyTestStatus :=
  | ok
  | syncing
  | wrong_bytecode
  | timeout
  | http_error
  | rpc_error
  | network_error.

#[global] Instance LatencyTestStatus_eq_dec : EqDecision LatencyTestStatus.
Proof. solve_decision. Defined.

(** [latency: number; // Infinity indicates failure]: either a difference of
    two clock readings (milliseconds) or [Infinity]. *)
Inductive Latency :=
  | Finite (ms : Z)
  | Infinity.

Definition latency_number (l : Latency) : JsNumber :=
  match l with
  | Finite ms => Num ms
  | Infinity => PosInfinity
  end.

Record LatencyTestResult := {
  url : string;
  latency : Latency;
  status : LatencyTestStatus;
  error : option string
}.

Abbreviation LatencyMap := (JsRecord LatencyTestResult).

(** ** JSON and the network *)

(** A parsed JSON value.  Only whether a number is zero is ever observed. *)
Inductive Json :=
  | JNull
  | JBool (b : bool)
  | JNumber (z : Z)
  | JString (s : string)
  | JArray (items : list Json)
  | JObject (fields : list (string * Json)).

(** [v?.k]: [undefined] ([None]) on [null], on a missing property and on
    values that have no such property. *)
Definition js_get (v : Json) (k : string) : option Json :=
  match v with
  | JObject fields => Record_get fields k
  | _ => None
  end.

(** Truthiness of [v] where [None] is [undefined]. *)
Definition js_truthy (v : option Json) : bool :=
  match v with
  | None | Some JNull => false
  | Some (JBool b) => b
  | Some (JNumber z) => negb (z =? 0)%Z
  | Some (JString s) => negb (String.eqb s "")
  | Some (JArray _) | Some (JObject _) => true
  end.

Definition js_typeof (v : option Json) : string :=
  match v with
  | None => "undefined"
  | Some (JBool _) => "boolean"
  | Some (JNumber _) => "number"
  | Some (JString _) => "string"
  | Some JNull | Some (JArray _) | Some (JObject _) => "object"
  end.

(** A thrown [Error]. *)
Record JsError := { name : string; message : string }.

Definition new_Error (msg : string) : JsError := {| name := "Error"; message := msg |}.

(** What [response.json()] does: throw on an unparseable body, or the value. *)
Record Response := {
  resp_ok : bool;
  resp_status : Z;
  resp_statusText : string;
  resp_json : JsError + Json
}.

(** What one [fetch] under an [AbortController] timer does: reject (a
    transport error, or the [AbortError] of the timer) or answer. *)
Inductive FetchOutcome :=
  | FetchRejects (e : JsError)
  | FetchResponds (r : Response).

Definition http_error_message (r : Response) : string :=
  "HTTP error " ++ pretty (resp_status r) ++ " " ++ resp_statusText r.

(** [Promise.all([p, q])]: the first rejection in time, else both values. *)
Definition Promise_all {E A B} (p : E + A) (q : E + B) (q_settles_first : bool)
    : E + (A * B) :=
  match p, q with
  | inr a, inr b => inr (a, b)
  | inl e, inr _ => inl e
  | inr _, inl e => inl e
  | inl e1, inl e2 => inl (if q_settles_first then e2 else e1)
  end.

(** ** latency-tester.ts *)

(** Everything the network and the clock contribute to one [testSingleRpc]. *)
Record ProbeExchange := {
  startTime : Z;
  getCodeFetch : FetchOutcome;
  syncingFetch : FetchOutcome;
  syncingSettlesFirst : bool;
  endTime : Z
}.

(** One element of [urls.map((url) => this.testSingleRpc(url))] as
    [Promise.allSettled] sees it: the probe runs on an exchange, or its
    promise rejects for a reason with (or without) a [message]. *)
Inductive ProbeRun :=
  | Completes (x : ProbeExchange)
  | Rejects (reason_message : option string).

Module LatencyTester.
Section WithBuiltins.
(** [permit2-bytecode.ts] (the embedded constant) and the string
    conversions of the JS runtime that only shape log text. *)
Variable PERMIT2_BYTECODE_PREFIX : string.
Variable ToString : option Json → string.
Variable JSON_stringify : option Json → string.

Definition _makeRpcCall (o : FetchOutcome) : JsError + Json :=
  match o with
  | FetchRejects e => inl e
  | FetchResponds r =>
      if negb (resp_ok r) then inl (new_Error (http_error_message r))
      else resp_json r
  end.

Fixpoint commonPrefixLength (a b : string) : nat :=
  match a, b with
  | String x a', String y b' =>
      if Ascii.eqb x y then S (commonPrefixLength a' b') else 0
  | _, _ => 0
  end.

Definition rpc_error_message (method : string) (err : option Json) : string :=
  method ++ " RPC error " ++ ToString (err ≫= λ e, js_get e "code")
         ++ " - " ++ ToString (err ≫= λ e, js_get e "message").

Definition testSingleRpc (url0 : string) (x : ProbeExchange) : LatencyTestResult :=
  match Promise_all (_makeRpcCall (getCodeFetch x)) (_makeRpcCall (syncingFetch x))
                    (syncingSettlesFirst x) with
  | inl err =>
      let status0 :=
        if String.eqb (name err) "AbortError" then timeout
        else if String.prefix "HTTP error" (message err) then http_error
        else network_error in
      {| url := url0; latency := Infinity; status := status0;
         error := Some (message err) |}
  | inr (getCodeResponse, syncingResponse) =>
      let latency0 := Finite (endTime x - startTime x) in
      if js_truthy (js_get getCodeResponse "error") then
        {| url := url0; latency := Infinity; status := rpc_error;
           error := Some (rpc_error_message "eth_getCode" (js_get getCodeResponse "error")) |}
      else if js_truthy (js_get syncingResponse "error") then
        {| url := url0; latency := Infinity; status := rpc_error;
           error := Some (rpc_error_message "eth_syncing" (js_get syncingResponse "error")) |}
      else
        match js_get syncingResponse "result" with
        | Some (JBool false) =>
            match js_get getCodeResponse "result" with
            | Some (JString code) =>
                if negb (String.prefix PERMIT2_BYTECODE_PREFIX code) then
                  {| url := url0; latency := latency0; status := wrong_bytecode;
                     error := Some ("Bytecode mismatch at position "
                                    ++ pretty (commonPrefixLength PERMIT2_BYTECODE_PREFIX code)) |}
                else
                  {| url := url0; latency := latency0; status := ok; error := None |}
            | other =>
                {| url := url0; latency := latency0; status := wrong_bytecode;
                   error := Some ("Invalid bytecode response type: " ++ js_typeof other) |}
            end
        | other =>
            {| url := url0; latency := latency0; status := syncing;
               error := Some ("Node is not synced (eth_syncing returned "
                              ++ JSON_stringify other ++ ")") |}
        end
  end.

(** What [results.forEach] stores for one settled promise: the value of a
    fulfilled one, a [network_error] entry for a rejected one
    ([result.reason?.message || "Unknown rejection"]). *)
Definition settledResult (url0 : string) (run : ProbeRun) : LatencyTestResult :=
  match run with
  | Completes x => testSingleRpc url0 x
  | Rejects reason_message =>
      let msg := match reason_message with
                 | Some m => if String.eqb m "" then "Unknown rejection" else m
                 | None => "Unknown rejection"
                 end in
      {| url := url0; latency := Infinity; status := network_error; error := Some msg |}
  end.

Definition settle (resultMap : LatencyMap) (url0 : string) (run : ProbeRun) : LatencyMap :=
  Record_set resultMap url0 (settledResult url0 run).

Fixpoint settle_from (network : nat → string → ProbeRun) (index : nat)
    (urls : list string) (resultMap : LatencyMap) : LatencyMap :=
  match urls with
  | [] => resultMap
  | url0 :: rest =>
      settle_from network (S index) rest (settle resultMap url0 (network index url0))
  end.

(** [network index url] is what probing [urls[index]] meets in this run. *)
Definition testRpcUrls (network : nat → string → ProbeRun) (urls : list string) : LatencyMap :=
  match urls with
  | [] => []
  | _ => settle_from network 0 urls []
  end.
End WithBuiltins.
End LatencyTester.

(** ** The process state and its environment *)

(** cache-manager.ts: [interface ChainCache]. *)
Record ChainCache := {
  fastestRpc : option string;
  latencyMap : LatencyMap;
  lastTested : Z
}.

Abbreviation CacheData := (gmap Z ChainCache).

(** The Deno KV store as the cache manager sees it: opening or using it
    throws, or it holds (or not) a value under [[cacheKey]]. *)
Inductive DenoKv :=
  | KvUnavailable
  | KvHolds (value : option CacheData).

(** chainlist-data-source.ts: one element of [whitelistData]. *)
Record ChainEntry := {
  chainId : Z;
  rpcUrls : list string
}.

(** The constructor options the engine reads, after defaults, and the
    whitelist as [loadData] left it. *)
Record Options := {
  cacheTtlMs : Z;
  disabled : bool;
  requestTimeoutMs : Z;
  whitelistData : list ChainEntry
}.

(** What the outside world answers, in the order the process asks:
    the n-th [Date.now()] of the cache manager, the n-th run of
    [testRpcUrls] (per index and URL), the n-th [fetch] of [executeRpcCall]. *)
Record Environment := {
  Date_now : nat → Z;
  probeNetwork : nat → nat → string → ProbeRun;
  upstream : nat → string → string → list Json → FetchOutcome
}.

(** The mutable state: the fields of [CacheManager], the KV store behind it,
    the module-level [ongoingLatencyTests] of rpc-selector.ts (a pending
    promise is the map it will resolve to), [rpcIndexMap] of
    [Permit2RpcManager], and how far the environment has been consumed:
    [probeLog] lists the URL lists handed to [testRpcUrls], [fetchLog] the
    URLs fetched by [executeRpcCall], oldest first. *)
Record State := {
  cache : CacheData;
  cacheLoaded : bool;
  kv : DenoKv;
  ongoingLatencyTests : gmap Z LatencyMap;
  rpcIndexMap : gmap Z nat;
  clockReads : nat;
  probeLog : list (list string);
  fetchLog : list string
}.

Definition set_cache (c : CacheData) (loaded : bool) (st : State) : State :=
  {| cache := c; cacheLoaded := loaded; kv := kv st;
     ongoingLatencyTests := ongoingLatencyTests st; rpcIndexMap := rpcIndexMap st;
     clockReads := clockReads st; probeLog := probeLog st; fetchLog := fetchLog st |}.

Definition set_kv (k : DenoKv) (st : State) : State :=
  {| cache := cache st; cacheLoaded := cacheLoaded st; kv := k;
     ongoingLatencyTests := ongoingLatencyTests st; rpcIndexMap := rpcIndexMap st;
     clockReads := clockReads st; probeLog := probeLog st; fetchLog := fetchLog st |}.

Definition set_ongoingLatencyTests (m : gmap Z LatencyMap) (st : State) : State :=
  {| cache := cache st; cacheLoaded := cacheLoaded st; kv := kv st;
     ongoingLatencyTests := m; rpcIndexMap := rpcIndexMap st;
     clockReads := clockReads st; probeLog := probeLog st; fetchLog := fetchLog st |}.

Definition set_rpcIndexMap (m : gmap Z nat) (st : State) : State :=
  {| cache := cache st; cacheLoaded := cacheLoaded st; kv := kv st;
     ongoingLatencyTests := ongoingLatencyTests st; rpcIndexMap := m;
     clockReads := clockReads st; probeLog := probeLog st; fetchLog := fetchLog st |}.

(** [Date.now()] in the cache manager. *)
Definition read_clock (env : Environment) (st : State) : Z * State :=
  (Date_now env (clockReads st),
   {| cache := cache st; cacheLoaded := cacheLoaded st; kv := kv st;
      ongoingLatencyTests := ongoingLatencyTests st; rpcIndexMap := rpcIndexMap st;
      clockReads := S (clockReads st); probeLog := probeLog st; fetchLog := fetchLog st |}).

Definition log_probe (urls : list string) (st : State) : State :=
  {| cache := cache st; cacheLoaded := cacheLoaded st; kv := kv st;
     ongoingLatencyTests := ongoingLatencyTests st; rpcIndexMap := rpcIndexMap st;
     clockReads := clockReads st; probeLog := probeLog st ++ [urls]; fetchLog := fetchLog st |}.

Definition log_fetch (url0 : string) (st : State) : State :=
  {| cache := cache st; cacheLoaded := cacheLoaded st; kv := kv st;
     ongoingLatencyTests := ongoingLatencyTests st; rpcIndexMap := rpcIndexMap st;
     clockReads := clockReads st; probeLog := probeLog st; fetchLog := fetchLog st ++ [url0] |}.

(** ** cache-manager.ts *)

Module CacheManager.
Section WithOptions.
Variable opts : Options.
Variable env : Environment.

Definition loadCache (st : State) : State :=
  if disabled opts || cacheLoaded st then st
  else
    match kv st with
    | KvHolds (Some value) => set_cache value true st
    | KvHolds None | KvUnavailable => set_cache ∅ true st
    end.

Definition saveCache (st : State) : State :=
  if disabled opts || negb (cacheLoaded st) then st
  else
    match kv st with
    | KvUnavailable => st
    | KvHolds _ => set_kv (KvHolds (Some (cache st))) st
    end.

Definition getRawChainCache (id : Z) (st : State) : option ChainCache * State :=
  let st1 := loadCache st in
  (cache st1 !! id, st1).

Definition getChainCache (id : Z) (st : State) : option ChainCache * State :=
  if disabled opts then (None, st)
  else
    let '(chainCache, st1) := getRawChainCache id st in
    match chainCache with
    | Some c =>
        let '(now, st2) := read_clock env st1 in
        if bool_decide (now - lastTested c < cacheTtlMs opts)%Z then (Some c, st2)
        else (None, st2)
    | None => (None, st1)
    end.

Definition updateChainCache (id : Z) (latencyMap0 : LatencyMap)
    (fastestRpc0 : option string) (st : State) : State :=
  if disabled opts then st
  else
    let st1 := loadCache st in
    let '(now, st2) := read_clock env st1 in
    let entry := {| fastestRpc := fastestRpc0; latencyMap := latencyMap0;
                    lastTested := now |} in
    saveCache (set_cache (<[id := entry]> (cache st2)) (cacheLoaded st2) st2).

Definition getFastestRpc (id : Z) (st : State) : option string * State :=
  let '(chainCache, st1) := getChainCache id st in
  (chainCache ≫= fastestRpc, st1).

Definition getLatencyMap (id : Z) (st : State) : option LatencyMap * State :=
  let '(chainCache, st1) := getRawChainCache id st in
  (latencyMap <$> chainCache, st1).
End WithOptions.
End CacheManager.

(** ** chainlist-data-source.ts *)

Module ChainlistDataSource.
Definition getRpcUrls (opts : Options) (id : Z) : list string :=
  match List.find (λ c, bool_decide (chainId c = id)) (whitelistData opts) with
  | Some chainEntry => rpcUrls chainEntry
  | None => []
  end.

(** [a === b] on numbers. *)
Definition js_strict_eq (a b : JsNumber) : bool :=
  match a, b with
  | Num x, Num y => bool_decide (x = y)
  | PosInfinity, PosInfinity | NegInfinity, NegInfinity => true
  | _, _ => false
  end.

(** [s.includes(needle)] *)
Fixpoint String_includes (needle s : string) : bool :=
  String.prefix needle s ||
  match s with
  | EmptyString => false
  | String _ rest => String_includes needle rest
  end.

(** [Object.entries(v)] of a parsed JSON value; the fields of an object are
    held in the order the engine enumerates them. *)
Definition Object_entries (v : Json) : list (string * Json) :=
  match v with
  | JObject fields => fields
  | JArray items => imap (λ i x, (pretty i, x)) items
  | JString s =>
      imap (λ i c, (pretty i, JString (String c EmptyString))) (String.list_ascii_of_string s)
  | JNull | JBool _ | JNumber _ => []
  end.

(** One element of [whitelistData] as [loadData] builds it: the chain id is
    whatever [parseInt] made of the key. *)
Record LoadedChain := {
  loadedChainId : JsNumber;
  loadedRpcUrls : list string
}.

(** The filter of [loadData]: [typeof url === "string" &&
    url.startsWith("https://") && !url.includes("${")]. *)
Definition keepUrl (url0 : Json) : option string :=
  match url0 with
  | JString u =>
      if String.prefix "https://" u && negb (String_includes "${" u) then Some u else None
  | _ => None
  end.

Section LoadData.
(** [parseInt(s, 10)] of the runtime. *)
Variable parseInt : string → JsNumber.

(** The callback of [Object.entries(jsonData.rpcs).map]: [urls.filter]
    throws ([None]) when [urls] is not an array. *)
Definition loadEntry (entry : string * Json) : option LoadedChain :=
  match entry.2 with
  | JArray urls =>
      Some {| loadedChainId := parseInt entry.1; loadedRpcUrls := omap keepUrl urls |}
  | _ => None
  end.

Fixpoint loadEntries (entries : list (string * Json)) : option (list LoadedChain) :=
  match entries with
  | [] => Some []
  | entry :: rest =>
      match loadEntry entry with
      | None => None
      | Some c =>
          match loadEntries rest with
          | None => None
          | Some cs => Some (c :: cs)
          end
      end
  end.

(** [loadData(jsonData)] on a fresh data source: [jsonData.rpcs || {}], and
    an empty whitelist when anything throws. *)
Definition loadData (jsonData : Json) : list LoadedChain :=
  let rpcs := js_get jsonData "rpcs" in
  let entries := if js_truthy rpcs then from_option Object_entries [] rpcs else [] in
  match loadEntries entries with
  | Some whitelistData0 => whitelistData0
  | None => []
  end.
End LoadData.

(** [getRpcUrls] and [getAllChainIds] on what [loadData] built. *)
Definition getLoadedRpcUrls (whitelistData0 : list LoadedChain) (id : Z) : list string :=
  match List.find (λ c, js_strict_eq (loadedChainId c) (Num id)) whitelistData0 with
  | Some chainEntry => loadedRpcUrls chainEntry
  | None => []
  end.

Definition getAllChainIds (whitelistData0 : list LoadedChain) : list JsNumber :=
  loadedChainId <$> whitelistData0.

(** The elements whose id is an integer, the only ones [getRpcUrls] can
    find when asked for an integer chain id: the [whitelistData] of
    [Options]. *)
Definition integerChains (whitelistData0 : list LoadedChain) : list ChainEntry :=
  omap (λ c, match loadedChainId c with
             | Num z => Some {| chainId := z; rpcUrls := loadedRpcUrls c |}
             | _ => None
             end) whitelistData0.
End ChainlistDataSource.

(** ** rpc-selector.ts: ranking *)

Module RpcSelector.

Definition ACCEPTABLE_STATUSES : list LatencyTestStatus :=
  [ok; wrong_bytecode; syncing].

(** The inner loop of [_findFastestInMap] for one [status]:
    [for (const url in latencyMap)] keeping the strictly fastest. *)
Definition fastestForStatus_step (status0 : LatencyTestStatus)
    (fastestForStatus : option LatencyTestResult) (entry : string * LatencyTestResult)
    : option LatencyTestResult :=
  let result := entry.2 in
  if decide (status result = status0) then
    match fastestForStatus with
    | None => Some result
    | Some f =>
        if js_lt (latency_number (latency result)) (latency_number (latency f))
        then Some result else Some f
    end
  else fastestForStatus.

Definition fastestForStatus (status0 : LatencyTestStatus) (latencyMap : LatencyMap)
    : option LatencyTestResult :=
  fold_left (fastestForStatus_step status0) latencyMap None.

(** The outer loop: the first status of the list with a result wins
    ([break]). *)
Fixpoint findFastest_loop (statuses : list LatencyTestStatus) (latencyMap : LatencyMap)
    : option LatencyTestResult :=
  match statuses with
  | [] => None
  | status0 :: rest =>
      match fastestForStatus status0 latencyMap with
      | Some f => Some f
      | None => findFastest_loop rest latencyMap
      end
  end.

Definition _findFastestInMap (latencyMap : option LatencyMap) : option LatencyTestResult :=
  match latencyMap with
  | None => None
  | Some m => findFastest_loop ACCEPTABLE_STATUSES m
  end.

(** The comparator handed to [validResults.sort]. *)
Definition compareResults (a b : LatencyTestResult) : JsNumber :=
  let statusA := Array_indexOf ACCEPTABLE_STATUSES (status a) in
  let statusB := Array_indexOf ACCEPTABLE_STATUSES (status b) in
  if decide (statusA ≠ statusB) then Num (statusA - statusB)
  else js_sub (latency_number (latency a)) (latency_number (latency b)).

Definition validResults (m : LatencyMap) : list LatencyTestResult :=
  filter (λ result, status result ∈ ACCEPTABLE_STATUSES) (Object_values m).

Definition rankedResults (m : LatencyMap) : list LatencyTestResult :=
  Array_sort compareResults (validResults m).

Definition _rankResults (latencyMap : option LatencyMap) : list string :=
  match latencyMap with
  | None => []
  | Some m => url <$> rankedResults m
  end.

Section WithOptions.
Variable PERMIT2_BYTECODE_PREFIX : string.
Variable ToString : option Json → string.
Variable JSON_stringify : option Json → string.
Variable opts : Options.
Variable env : Environment.

(** The negation of the test that sends [getRankedRpcList] to re-test. *)
Definition cacheIsValid (latencyMap0 : option LatencyMap)
    (fastestCachedRpc : option string) : bool :=
  match latencyMap0, fastestCachedRpc with
  | Some m, Some fastest =>
      negb (String.eqb fastest "") &&
      match Record_get m fastest with
      | Some result => bool_decide (status result ∈ ACCEPTABLE_STATUSES)
      | None => false
      end
  | _, _ => false
  end.

(** [testRpcUrls] never rejects and [updateChainCache] catches what the
    KV store throws, so the [catch] arm of the source ([latencyMap = {}])
    has no way in; [finally] removes the entry [set] put in
    [ongoingLatencyTests]. *)
Definition getRankedRpcList (id : Z) (st : State) : list string * State :=
  let '(latencyMap0, st1) := CacheManager.getLatencyMap opts id st in
  let '(fastestCachedRpc, st2) := CacheManager.getFastestRpc opts env id st1 in
  if negb (cacheIsValid latencyMap0 fastestCachedRpc) then
    match ongoingLatencyTests st2 !! id with
    | Some pending => (_rankResults (Some pending), st2)
    | None =>
        let rpcUrls0 := ChainlistDataSource.getRpcUrls opts id in
        match rpcUrls0 with
        | [] => ([], st2)
        | _ =>
            let tested :=
              LatencyTester.testRpcUrls PERMIT2_BYTECODE_PREFIX ToString JSON_stringify
                (probeNetwork env (length (probeLog st2))) rpcUrls0 in
            let st3 := log_probe rpcUrls0 st2 in
            let newFastest := _findFastestInMap (Some tested) in
            let st4 := CacheManager.updateChainCache opts env id tested
                         (url <$> newFastest) st3 in
            let st5 := set_ongoingLatencyTests
                         (delete id (ongoingLatencyTests st4)) st4 in
            (_rankResults (Some tested), st5)
        end
    end
  else (_rankResults latencyMap0, st2).
End WithOptions.

End RpcSelector.

(** ** permit2-rpc-manager.ts *)

Module Permit2RpcManager.
Section WithOptions.
Variable PERMIT2_BYTECODE_PREFIX : string.
Variable ToString : option Json → string.
Variable JSON_stringify : option Json → string.
Variable opts : Options.
Variable env : Environment.

(** The outcome of [executeRpcCall] on what its [fetch] met: a thrown
    error, or the returned [responseData.result] ([None] is [undefined]). *)
Definition executeRpcCall (o : FetchOutcome) : JsError + option Json :=
  let attempt : JsError + option Json :=
    match o with
    | FetchRejects e => inl e
    | FetchResponds r =>
        if negb (resp_ok r) then inl (new_Error (http_error_message r))
        else
          match resp_json r with
          | inl e => inl e
          | inr JNull =>
              inl {| name := "TypeError";
                     message := "Cannot read properties of null (reading 'error')" |}
          | inr responseData =>
              let err := js_get responseData "error" in
              if js_truthy err then
                inl (new_Error ("RPC error " ++ ToString (err ≫= λ e, js_get e "code")
                                ++ ": " ++ ToString (err ≫= λ e, js_get e "message")))
              else inr (js_get responseData "result")
          end
    end in
  match attempt with
  | inl e =>
      if String.eqb (name e) "AbortError"
      then inl (new_Error ("Request timed out after " ++ pretty (requestTimeoutMs opts) ++ "ms"))
      else inl e
  | inr result => inr result
  end.

(** How the [for] loop of [send] ends. *)
Inductive LoopExit :=
  | Returns (result : option Json)
  | Exhausted (lastError : option JsError).

(** The loop body for the remaining values of [i]. *)
Fixpoint send_loop (method : string) (params : list Json)
    (rankedRpcList : list string) (startIndex : nat) (iterations : list nat)
    (lastError : option JsError) (st : State) : LoopExit * State :=
  match iterations with
  | [] => (Exhausted lastError, st)
  | i :: rest =>
      let listIndex := (startIndex + i) `mod` length rankedRpcList in
      match rankedRpcList !! listIndex with
      | None | Some "" =>
          send_loop method params rankedRpcList startIndex rest lastError st
      | Some rpcUrl =>
          let o := upstream env (length (fetchLog st)) rpcUrl method params in
          let st1 := log_fetch rpcUrl st in
          match executeRpcCall o with
          | inr result => (Returns result, st1)
          | inl e => send_loop method params rankedRpcList startIndex rest (Some e) st1
          end
      end
  end.

(** The block "Round-Robin Start Index" of [send]: read the index of the
    chain ([|| 0]), reduce it to the list, store the next one. *)
Definition roundRobinStart (id : Z) (n : nat) (st : State) : nat * State :=
  let currentIndex := default 0 (rpcIndexMap st !! id) in
  let startIndex := currentIndex `mod` n in
  (startIndex,
   set_rpcIndexMap (<[id := (currentIndex + 1) `mod` n]> (rpcIndexMap st)) st).

Definition noEndpointsError (id : Z) : JsError :=
  new_Error ("No available RPC endpoints found for chainId " ++ pretty id ++ ".").

Definition allFailedError (id : Z) (lastError : option JsError) : JsError :=
  new_Error ("All available RPC endpoints failed for chainId " ++ pretty id
             ++ ". Last error: "
             ++ match lastError with Some e => message e | None => "undefined" end).

Definition send (id : Z) (method : string) (params : list Json) (st : State)
    : (JsError + option Json) * State :=
  let '(rankedRpcList, st1) :=
    RpcSelector.getRankedRpcList PERMIT2_BYTECODE_PREFIX ToString JSON_stringify
      opts env id st in
  match rankedRpcList with
  | [] => (inl (noEndpointsError id), st1)
  | _ =>
      let '(startIndex, st2) := roundRobinStart id (length rankedRpcList) st1 in
      match send_loop method params rankedRpcList startIndex
              (seq 0 (length rankedRpcList)) None st2 with
      | (Returns result, st3) => (inr result, st3)
      | (Exhausted lastError, st3) => (inl (allFailedError id lastError), st3)
      end
  end.
End WithOptions.
End Permit2RpcManager.


(** ** Vocabulary of the specification *)

(** [ACCEPT.index(status)]. *)
Definition acceptIndex (s : LatencyTestStatus) : Z :=
  Array_indexOf RpcSelector.ACCEPTABLE_STATUSES s.

(** [a ≤ b] on latencies, [Infinity] above every measured value. *)
Definition latency_le (a b : Latency) : Prop :=
  match a, b with
  | Finite x, Finite y => (x ≤ y)%Z
  | _, Infinity => True
  | Infinity, Finite _ => False
  end.

(** The order of the ranking on two results. *)
Definition ranked_before (a b : LatencyTestResult) : Prop :=
  (acceptIndex (status a) < acceptIndex (status b))%Z ∨
  (status a = status b ∧ latency_le (latency a) (latency b)).

(** Two results tie when the ranking cannot tell them apart. *)
Definition ties_with (a b : LatencyTestResult) : Prop :=
  status b = status a ∧ latency b = latency a.

#[global] Instance Latency_eq_dec : EqDecision Latency.
Proof. solve_decision. Defined.

#[global] Instance ties_with_dec a b : Decision (ties_with a b).
Proof. unfold ties_with. apply _. Defined.

(** The URLs a [send] may fetch, in the order it would: the ranked list
    rotated to the start index, empty strings passed over. *)
Definition attemptOrder (rankedRpcList : list string) (startIndex : nat) : list string :=
  filter (λ u, u ≠ "") (rotate startIndex rankedRpcList).

(** What each URL of [order] answers when fetched in that order, the first
    fetch being the [base]-th of the process. *)
Definition attemptOutcomes (ToString : option Json → string) (opts : Options)
    (env : Environment) (method : string) (params : list Json)
    (base : nat) (order : list string) : list (JsError + option Json) :=
  imap (λ j u, Permit2RpcManager.executeRpcCall ToString opts
                 (upstream env (base + j) u method params)) order.

(** The URLs the loop of [send] fetches when nothing succeeds: those of the
    list indices it computes, empty strings passed over. *)
Definition visitedUrls (rankedRpcList : list string) (startIndex : nat)
    (iterations : list nat) : list string :=
  filter (λ u, u ≠ "")
    (omap (λ i, rankedRpcList !! ((startIndex + i) `mod` length rankedRpcList)) iterations).

(** [st'] differs from [st] in the cache manager's part at most: its cache,
    the KV store, the clock. *)
Definition cache_only (st st' : State) : Prop :=
  rpcIndexMap st' = rpcIndexMap st ∧ fetchLog st' = fetchLog st ∧
  probeLog st' = probeLog st ∧ ongoingLatencyTests st' = ongoingLatencyTests st.

(** The same options over another whitelist. *)
Definition withWhitelist (whitelist : list ChainEntry) (opts : Options) : Options :=
  {| cacheTtlMs := cacheTtlMs opts; disabled := disabled opts;
     requestTimeoutMs := requestTimeoutMs opts; whitelistData := whitelist |}.

(** The statuses that are not acceptable for selection. *)
Definition HARD_FAIL_STATUSES : list LatencyTestStatus :=
  [timeout; http_error; rpc_error; network_error].

(** A new process over the same KV store: the fields of the objects are
    as their classes initialise them; the environment carries on. *)
Definition restart (st : State) : State :=
  {| cache := ∅; cacheLoaded := false; kv := kv st;
     ongoingLatencyTests := ∅; rpcIndexMap := ∅;
     clockReads := clockReads st; probeLog := probeLog st; fetchLog := fetchLog st |}.

(** A URL the whitelist keeps. *)
Definition validUrl (u : string) : Prop :=
  String.prefix "https://" u = true ∧ ChainlistDataSource.String_includes "${" u = false.

(** The call behind [o] came back with a 2xx status and the JSON value
    [body]: the one way [_makeRpcCall] returns. *)
Definition answers (o : FetchOutcome) (body : Json) : Prop :=
  ∃ r, o = FetchResponds r ∧ resp_ok r = true ∧ resp_json r = inr body.

(** The error of the last of some failed attempts, if any. *)
Definition lastErrorOf (outcomes : list (JsError + option Json)) : option JsError :=
  match last outcomes with
  | Some (inl e) => Some e
  | _ => None
  end.

(** The state after [k] calls of [send] in a row. *)
Fixpoint sends (PERMIT2_BYTECODE_PREFIX : string)
    (ToString JSON_stringify : option Json → string) (opts : Options) (env : Environment)
    (id : Z) (method : string) (params : list Json) (k : nat) (st : State) : State :=
  match k with
  | 0 => st
  | S k' =>
      (Permit2RpcManager.send PERMIT2_BYTECODE_PREFIX ToString JSON_stringify opts env
         id method params
         (sends PERMIT2_BYTECODE_PREFIX ToString JSON_stringify opts env id method params k' st)).2
  end.

(** The leftmost least element, folding from the right: what the head of a
    stable sort is. *)
Definition pick {A} (comparefn : A → A → JsNumber) (x y : A) : A :=
  if js_positive (comparefn x y) then y else x.

Definition pick_opt {A} (comparefn : A → A → JsNumber) (a b : option A) : option A :=
  match a, b with
  | None, o | o, None => o
  | Some x, Some y => Some (pick comparefn x y)
  end.

Definition leftmost_least {A} (comparefn : A → A → JsNumber) (l : list A) : option A :=
  foldr (λ x acc, pick_opt comparefn (Some x) acc) None l.

(** ** Sample data *)

Definition sampleOptions : Options :=
  {| cacheTtlMs := 3600000; disabled := false; requestTimeoutMs := 10000;
     whitelistData := [{| chainId := 100; rpcUrls := ["https://A"; "https://B"; "https://C"] |}] |}.

(** The same, with [disableCache: true]. *)
Definition disabledOptions : Options :=
  {| cacheTtlMs := 3600000; disabled := true; requestTimeoutMs := 10000;
     whitelistData := [{| chainId := 100; rpcUrls := ["https://A"; "https://B"; "https://C"] |}] |}.

Definition sampleUrls : list string := ["https://A"; "https://B"; "https://C"].

Definition sampleResponse (body : Json) : Response :=
  {| resp_ok := true; resp_status := 200; resp_statusText := "OK"; resp_json := inr body |}.

Definition samplePrefix : string := "0x6040".

Definition sampleToString (v : option Json) : string := js_typeof v.

(** A probe that finds a synced node with the Permit2 bytecode in 42 ms. *)
Definition okExchange : ProbeExchange :=
  {| startTime := 1000;
     getCodeFetch := FetchResponds (sampleResponse (JObject [("result", JString "0x6040abc")]));
     syncingFetch := FetchResponds (sampleResponse (JObject [("result", JBool false)]));
     syncingSettlesFirst := false;
     endTime := 1042 |}.

(** A probe whose two calls are aborted by the timer. *)
Definition timeoutExchange : ProbeExchange :=
  {| startTime := 1000;
     getCodeFetch := FetchRejects {| name := "AbortError"; message := "The operation was aborted." |};
     syncingFetch := FetchRejects {| name := "AbortError"; message := "The operation was aborted." |};
     syncingSettlesFirst := false;
     endTime := 6000 |}.

(** All nodes healthy, every call answered with ["0x64"]; a clock that
    advances one millisecond per reading. *)
Definition healthyEnv : Environment :=
  {| Date_now := λ n, (5000 + Z.of_nat n)%Z;
     probeNetwork := λ _ _ _, Completes okExchange;
     upstream := λ _ _ _ _,
       FetchResponds (sampleResponse (JObject [("result", JString "0x64")])) |}.

(** Every probe times out. *)
Definition deadEnv : Environment :=
  {| Date_now := λ n, (5000 + Z.of_nat n)%Z;
     probeNetwork := λ _ _ _, Completes timeoutExchange;
     upstream := λ _ _ _ _,
       FetchResponds (sampleResponse (JObject [("result", JString "0x64")])) |}.

(** What a probe of [url0] that timed out is recorded as. *)
Definition timedOut (url0 : string) : LatencyTestResult :=
  {| url := url0; latency := Infinity; status := timeout;
     error := Some "The operation was aborted." |}.

(** A probe map with one healthy URL, an entry holding it that was tested
    at 4000 ms, and a clock that reads two hours later. *)
Definition sampleMap : LatencyMap :=
  [("https://A", {| url := "https://A"; latency := Finite 42; status := ok; error := None |})].

Definition staleEntry : ChainCache :=
  {| fastestRpc := Some "https://A"; latencyMap := sampleMap; lastTested := 4000 |}.

Definition lateEnv : Environment :=
  {| Date_now := λ n, (7204000 + Z.of_nat n)%Z;
     probeNetwork := λ _ _ _, Completes okExchange;
     upstream := λ _ _ _ _,
       FetchResponds (sampleResponse (JObject [("result", JString "0x64")])) |}.

(** Healthy at probe time, but every call sent afterwards fails to
    connect. *)
Definition downEnv : Environment :=
  {| Date_now := λ n, (5000 + Z.of_nat n)%Z;
     probeNetwork := λ _ _ _, Completes okExchange;
     upstream := λ _ _ _ _,
       FetchRejects {| name := "TypeError"; message := "Failed to fetch" |} |}.

(** A whitelist document: one usable URL, one with a placeholder, one
    over plain http, one that is not a string; and one whose second chain
    lists its URLs as a string instead of an array. *)
Definition sampleWhitelist : Json :=
  JObject [("rpcs", JObject [("100", JArray [JString "https://A";
                                             JString "https://B/${API_KEY}";
                                             JString "http://C";
                                             JNumber 7])])].

Definition brokenWhitelist : Json :=
  JObject [("rpcs", JObject [("100", JArray [JString "https://A"]);
                             ("137", JString "https://P")])].

(** [parseInt] on the keys of the samples. *)
Definition sampleParseInt (s : string) : JsNumber :=
  if String.eqb s "100" then Num 100
  else if String.eqb s "137" then Num 137
  else NaN.

(** A process that has just started, over an empty KV store. *)
Definition initialState : State :=
  {| cache := ∅; cacheLoaded := false; kv := KvHolds None;
     ongoingLatencyTests := ∅; rpcIndexMap := ∅;
     clockReads := 0; probeLog := []; fetchLog := [] |}.

(** ** Sorting with a comparator *)

Section SortFacts.
Context {A : Type} (comparefn : A → A → JsNumber).

(** [x] may stand before [y]. *)
Let le (x y : A) : Prop := js_positive (comparefn x y) = false.

Lemma sort_insert_perm x l : sort_insert comparefn x l ≡ₚ x :: l.
Proof.
  induction l as [|y l IH]; simpl; [done|].
  destruct (js_positive _); [|done].
  rewrite IH. apply Permutation_swap.
Qed.

Lemma Array_sort_perm l : Array_sort comparefn l ≡ₚ l.
Proof.
  induction l as [|x l IH]; simpl; [done|].
  rewrite sort_insert_perm. by f_equiv.
Qed.

Lemma head_sort_insert x l :
  head (sort_insert comparefn x l) = pick_opt comparefn (Some x) (head l).
Proof.
  destruct l as [|y l]; simpl; [done|].
  unfold pick. by destruct (js_positive _).
Qed.

Lemma head_Array_sort l : head (Array_sort comparefn l) = leftmost_least comparefn l.
Proof.
  induction l as [|x l IH]; simpl; [done|].
  by rewrite head_sort_insert, IH.
Qed.

(** An element that is inserted only passes elements it does not tie with,
    so the elements of one class keep their order. *)
Lemma filter_sort_insert (P : A → Prop) `{∀ y, Decision (P y)} x l :
  (∀ y, P x → P y → le x y) →
  filter P (sort_insert comparefn x l) = filter P (x :: l).
Proof.
  intros Hcls. induction l as [|y l IH]; simpl; [done|].
  destruct (js_positive (comparefn x y)) eqn:Hxy; [|done].
  rewrite !filter_cons in *.
  destruct (decide (P y)) as [Hy|Hy], (decide (P x)) as [Hx|Hx];
    try (by rewrite IH).
  specialize (Hcls y Hx Hy). unfold le in Hcls. congruence.
Qed.

Lemma filter_Array_sort (P : A → Prop) `{∀ y, Decision (P y)} l :
  (∀ x y, P x → P y → le x y) →
  filter P (Array_sort comparefn l) = filter P l.
Proof.
  intros Hcls. induction l as [|x l IH]; simpl; [done|].
  rewrite filter_sort_insert by (intros; by apply Hcls).
  rewrite !filter_cons. by rewrite IH.
Qed.

Section Consistent.
(** A consistent comparator: never both ways positive, and [le] is
    transitive. *)
Hypothesis cmp_total : ∀ x y, js_positive (comparefn x y) = true → le y x.
Hypothesis cmp_trans : ∀ x y z, le x y → le y z → le x z.

Lemma sort_insert_sorted x l :
  Sorted le l → Sorted le (sort_insert comparefn x l).
Proof.
  induction 1 as [|y l Hl IH Hhd]; simpl.
  - repeat constructor.
  - destruct (js_positive (comparefn x y)) eqn:Hxy.
    + constructor; [done|].
      destruct l as [|z l]; simpl in *.
      * constructor. by apply cmp_total.
      * destruct (js_positive (comparefn x z)); constructor.
        -- by inversion Hhd.
        -- by apply cmp_total.
    + constructor; [by constructor|]. by constructor.
Qed.

Lemma Array_sort_sorted l : Sorted le (Array_sort comparefn l).
Proof.
  induction l as [|x l IH]; simpl; [constructor|].
  by apply sort_insert_sorted.
Qed.

Lemma pick_assoc x y z :
  pick comparefn x (pick comparefn y z) = pick comparefn (pick comparefn x y) z.
Proof.
  unfold pick.
  destruct (js_positive (comparefn y z)) eqn:Hyz,
           (js_positive (comparefn x y)) eqn:Hxy;
    rewrite ?Hyz, ?Hxy; try done.
  - destruct (js_positive (comparefn x z)) eqn:Hxz; [done|].
    pose proof (cmp_trans x z y Hxz (cmp_total y z Hyz)) as Hle.
    unfold le in Hle. congruence.
  - by rewrite (cmp_trans x y z Hxy Hyz).
Qed.

Lemma pick_opt_assoc a b c :
  pick_opt comparefn a (pick_opt comparefn b c)
  = pick_opt comparefn (pick_opt comparefn a b) c.
Proof.
  destruct a, b, c; simpl; try done. by rewrite pick_assoc.
Qed.

(** Scanning from the left and keeping the earlier of two ties finds the
    same element. *)
Lemma fold_left_pick l acc :
  fold_left (λ acc x, pick_opt comparefn acc (Some x)) l acc
  = pick_opt comparefn acc (leftmost_least comparefn l).
Proof.
  revert acc. induction l as [|x l IH]; intros acc.
  - by destruct acc.
  - change (leftmost_least comparefn (x :: l))
      with (pick_opt comparefn (Some x) (leftmost_least comparefn l)).
    rewrite pick_opt_assoc. apply IH.
Qed.

(** Two elements the comparator cannot order. *)
Let tie (a b : A) : Prop := le a b ∧ le b a.

Lemma Sorted_le_head x l y : Sorted le (x :: l) → y ∈ x :: l → le x y.
Proof.
  intros Hs Hy. apply Sorted_StronglySorted in Hs.
  - apply StronglySorted_inv in Hs as [_ Hall].
    apply elem_of_cons in Hy as [->|Hy].
    + destruct (js_positive (comparefn x x)) eqn:Hxx; [by apply cmp_total|done].
    + by eapply Forall_forall in Hall.
  - intros a b c. apply cmp_trans.
Qed.

(** There is one stable sorted arrangement of a list: whatever algorithm
    the engine runs, [Array_sort] is its result. *)
Lemma stable_sort_unique `{∀ a b, Decision (tie a b)} (l1 l2 : list A) :
  l1 ≡ₚ l2 → Sorted le l1 → Sorted le l2 →
  (∀ a, filter (tie a) l1 = filter (tie a) l2) →
  l1 = l2.
Proof.
  revert l2. induction l1 as [|x l1 IH]; intros l2 Hperm Hs1 Hs2 Hstable.
  - by apply Permutation_nil_l in Hperm.
  - destruct l2 as [|y l2]; [by apply Permutation_nil_r in Hperm|].
    assert (tie x y) as Hxy.
    { split.
      - apply (Sorted_le_head x l1); [done|]. rewrite Hperm. left.
      - apply (Sorted_le_head y l2); [done|]. rewrite <- Hperm. left. }
    assert (tie x x) as Hxx.
    { split; apply (Sorted_le_head x l1); done || left. }
    assert (x = y) as <-.
    { specialize (Hstable x). rewrite !filter_cons in Hstable.
      rewrite !decide_True in Hstable by done. by injection Hstable. }
    f_equal. apply IH.
    + by apply Permutation_cons_inv in Hperm.
    + by apply Sorted_inv in Hs1 as [? _].
    + by apply Sorted_inv in Hs2 as [? _].
    + intros a. specialize (Hstable a). rewrite !filter_cons in Hstable.
      destruct (decide (tie a x)); [by injection Hstable|done].
Qed.

Lemma Array_sort_characterized `{∀ a b, Decision (tie a b)} (l l' : list A) :
  l' ≡ₚ l → Sorted le l' →
  (∀ a, filter (tie a) l' = filter (tie a) l) →
  l' = Array_sort comparefn l.
Proof.
  intros Hperm Hsorted Hstable. apply stable_sort_unique.
  - by rewrite Array_sort_perm.
  - done.
  - apply Array_sort_sorted.
  - intros a. rewrite Hstable. symmetry. apply filter_Array_sort.
    intros x y [_ Hxa] [Hay _]. by apply (cmp_trans x a y).
Qed.
End Consistent.
End SortFacts.

(** ** Ranking (rpc-selector.ts) *)

Lemma Sorted_adjacent {A} (R : A → A → Prop) (l : list A) i a b :
  Sorted R l → l !! i = Some a → l !! S i = Some b → R a b.
Proof.
  intros Hs. revert i. induction Hs as [|x l Hs IH Hhd]; intros i Ha Hb; [done|].
  destruct i as [|i]; simpl in *.
  - inversion Ha; subst. destruct l; simpl in *; [done|].
    inversion Hb; subst. by inversion Hhd.
  - by eapply IH.
Qed.

Lemma js_positive_sub_latency a b :
  js_positive (js_sub (latency_number a) (latency_number b)) = false ↔ latency_le a b.
Proof.
  destruct a as [x|], b as [y|]; simpl; try done.
  unfold js_positive, js_lt. rewrite bool_decide_eq_false. lia.
Qed.

Lemma js_lt_latency a b :
  js_lt (latency_number a) (latency_number b)
  = js_positive (js_sub (latency_number b) (latency_number a)).
Proof.
  destruct a as [x|], b as [y|]; simpl; try done.
  unfold js_positive, js_lt. apply bool_decide_ext. lia.
Qed.

Lemma compareResults_le a b :
  js_positive (RpcSelector.compareResults a b) = false ↔
  (acceptIndex (status a) < acceptIndex (status b))%Z ∨
  (acceptIndex (status a) = acceptIndex (status b) ∧ latency_le (latency a) (latency b)).
Proof.
  unfold RpcSelector.compareResults. fold (acceptIndex (status a)) (acceptIndex (status b)).
  destruct (decide (acceptIndex (status a) ≠ acceptIndex (status b))) as [Hne|Heq].
  - unfold js_positive, js_lt. rewrite bool_decide_eq_false.
    split; [intros; left; lia | intros [?|[? ?]]; lia].
  - apply dec_stable in Heq. rewrite js_positive_sub_latency. rewrite Heq.
    split; [intros; right; done | intros [?|[? ?]]; [lia|done]].
Qed.

Lemma latency_le_total a b : latency_le a b ∨ latency_le b a.
Proof. destruct a, b; simpl; lia. Qed.

Lemma latency_le_trans a b c : latency_le a b → latency_le b c → latency_le a c.
Proof. destruct a, b, c; simpl; lia. Qed.

Lemma compareResults_total a b :
  js_positive (RpcSelector.compareResults a b) = true →
  js_positive (RpcSelector.compareResults b a) = false.
Proof.
  intros Hab.
  destruct (js_positive (RpcSelector.compareResults b a)) eqn:Hba; [exfalso|done].
  apply not_false_iff_true in Hab, Hba. rewrite compareResults_le in Hab, Hba.
  destruct (Z.lt_trichotomy (acceptIndex (status a)) (acceptIndex (status b)))
    as [Hlt|[Heq|Hgt]].
  - apply Hab. by left.
  - destruct (latency_le_total (latency a) (latency b)).
    + apply Hab. by right.
    + apply Hba. by right.
  - apply Hba. left. lia.
Qed.

Lemma compareResults_trans a b c :
  js_positive (RpcSelector.compareResults a b) = false →
  js_positive (RpcSelector.compareResults b c) = false →
  js_positive (RpcSelector.compareResults a c) = false.
Proof.
  rewrite !compareResults_le. intros [?|[? Hab]] [?|[? Hbc]]; try lia.
  right. split; [lia|]. by eapply latency_le_trans.
Qed.

Lemma acceptIndex_inj s t :
  s ∈ RpcSelector.ACCEPTABLE_STATUSES → t ∈ RpcSelector.ACCEPTABLE_STATUSES →
  acceptIndex s = acceptIndex t → s = t.
Proof.
  unfold RpcSelector.ACCEPTABLE_STATUSES. rewrite !elem_of_cons, !elem_of_nil.
  intros [->|[->|[->|[]]]] [->|[->|[->|[]]]]; vm_compute; congruence.
Qed.

Lemma elem_of_rankedResults m r :
  r ∈ RpcSelector.rankedResults m ↔
  r ∈ Object_values m ∧ status r ∈ RpcSelector.ACCEPTABLE_STATUSES.
Proof.
  unfold RpcSelector.rankedResults, RpcSelector.validResults.
  rewrite Array_sort_perm. by rewrite list_elem_of_filter, (comm and).
Qed.

(** Scenario S3 of the specification: status priority beats latency. *)
Example rank_s3 :
  RpcSelector._rankResults (Some
    [("https://A", {| url := "https://A"; latency := Finite 100; status := ok; error := None |});
     ("https://B", {| url := "https://B"; latency := Finite 30; status := syncing; error := None |})])
  = ["https://A"; "https://B"].
Proof. vm_compute. reflexivity. Qed.

(** C4. The ranking of a probe map lists the URLs of exactly the results
    whose status is acceptable; any two adjacent results are in order (a
    strictly smaller index in ACCEPTABLE_STATUSES, or the same status and a
    latency not above); results that tie keep the order the probe map
    iterates them in. *)
Theorem rankResults_sorted_stable (m : LatencyMap) :
  RpcSelector._rankResults (Some m) = url <$> RpcSelector.rankedResults m ∧
  RpcSelector.rankedResults m
    ≡ₚ filter (λ r, status r ∈ RpcSelector.ACCEPTABLE_STATUSES) (Object_values m) ∧
  (∀ r, r ∈ RpcSelector.rankedResults m ↔
        r ∈ Object_values m ∧ status r ∈ RpcSelector.ACCEPTABLE_STATUSES) ∧
  (∀ i a b, RpcSelector.rankedResults m !! i = Some a →
            RpcSelector.rankedResults m !! S i = Some b →
            ranked_before a b) ∧
  (∀ a, filter (ties_with a) (RpcSelector.rankedResults m)
        = filter (ties_with a)
            (filter (λ r, status r ∈ RpcSelector.ACCEPTABLE_STATUSES) (Object_values m))).
Proof.
  split_and!.
  - done.
  - apply Array_sort_perm.
  - apply elem_of_rankedResults.
  - intros i a b Ha Hb.
    pose proof (Array_sort_sorted RpcSelector.compareResults compareResults_total
                  (RpcSelector.validResults m)) as Hs.
    pose proof (Sorted_adjacent _ _ _ _ _ Hs Ha Hb) as Hle. cbv beta in Hle.
    apply compareResults_le in Hle.
    destruct Hle as [Hlt|[Heq Hlat]]; [by left|right].
    split; [|done]. apply acceptIndex_inj; [| |done].
    + eapply elem_of_rankedResults, list_elem_of_lookup_2, Ha.
    + eapply elem_of_rankedResults, list_elem_of_lookup_2, Hb.
  - intros a. apply filter_Array_sort.
    intros x y [Hsx Hlx] [Hsy Hly]. apply compareResults_le. right.
    rewrite Hsx, Hsy, Hlx, Hly. split; [done|].
    destruct (latency a); simpl; lia.
Qed.

Lemma leftmost_least_elem {A} (comparefn : A → A → JsNumber) l y :
  leftmost_least comparefn l = Some y → y ∈ l.
Proof.
  revert y. induction l as [|x l IH]; intros y; simpl; [done|].
  destruct (leftmost_least comparefn l) as [z|]; simpl.
  - unfold pick. destruct (js_positive _); intros [= <-].
    + right. by apply IH.
    + left.
  - intros [= <-]. left.
Qed.

Lemma leftmost_least_filter {A} (comparefn : A → A → JsNumber)
    (P : A → Prop) `{∀ y, Decision (P y)} l y :
  leftmost_least comparefn (filter P l) = Some y → P y.
Proof.
  intros Hy. apply leftmost_least_elem in Hy.
  by apply list_elem_of_filter in Hy as [? _].
Qed.

Lemma pick_same_status f r :
  status f = status r →
  pick RpcSelector.compareResults f r
  = if js_lt (latency_number (latency r)) (latency_number (latency f)) then r else f.
Proof.
  intros Hs. unfold pick, RpcSelector.compareResults. rewrite Hs.
  rewrite decide_False by (intros Hne; by apply Hne).
  by rewrite js_lt_latency.
Qed.

Lemma pick_better x y :
  (acceptIndex (status x) < acceptIndex (status y))%Z →
  pick RpcSelector.compareResults x y = x.
Proof.
  intros Hlt. unfold pick.
  assert (js_positive (RpcSelector.compareResults x y) = false) as ->; [|done].
  apply compareResults_le. by left.
Qed.

Lemma pick_worse x y :
  (acceptIndex (status y) < acceptIndex (status x))%Z →
  pick RpcSelector.compareResults x y = y.
Proof.
  intros Hlt. unfold pick.
  destruct (js_positive (RpcSelector.compareResults x y)) eqn:Hxy; [done|].
  apply compareResults_le in Hxy. lia.
Qed.

(** The inner loop of [_findFastestInMap] is a left scan for the leftmost
    least result of one status. *)
Lemma fastestForStatus_scan s (m : LatencyMap) acc :
  (∀ f, acc = Some f → status f = s) →
  fold_left (RpcSelector.fastestForStatus_step s) m acc
  = fold_left (λ acc x, pick_opt RpcSelector.compareResults acc (Some x))
      (filter (λ r, status r = s) (Object_values m)) acc.
Proof.
  revert acc. induction m as [|[k r] m IH]; intros acc Hacc; [done|].
  unfold Object_values in *. rewrite fmap_cons, filter_cons. cbn [fold_left snd].
  unfold RpcSelector.fastestForStatus_step at 2. cbn [snd].
  destruct (decide (status r = s)) as [Hr|Hr]; [|by apply IH].
  cbn [fold_left]. destruct acc as [f|]; simpl.
  - rewrite pick_same_status by (rewrite Hr; by apply Hacc).
    destruct (js_lt _ _); apply IH; by intros ? [= <-]; rewrite ?(Hacc f).
  - apply IH. by intros ? [= <-].
Qed.

Lemma fastestForStatus_leftmost_least s (m : LatencyMap) :
  RpcSelector.fastestForStatus s m
  = leftmost_least RpcSelector.compareResults
      (filter (λ r, status r = s) (Object_values m)).
Proof.
  unfold RpcSelector.fastestForStatus.
  rewrite fastestForStatus_scan by done.
  rewrite fold_left_pick; [done|apply compareResults_total|apply compareResults_trans].
Qed.

(** When the members of a class all rank before the others, the leftmost
    least element is that of the class if it has one, and that of the others
    if not. *)
Lemma leftmost_least_split {A} (comparefn : A → A → JsNumber)
    (P : A → Prop) `{∀ y, Decision (P y)} (l : list A) :
  (∀ x y, x ∈ l → y ∈ l → P x → ¬ P y →
     pick comparefn x y = x ∧ pick comparefn y x = x) →
  leftmost_least comparefn l
  = match leftmost_least comparefn (filter P l) with
    | Some f => Some f
    | None => leftmost_least comparefn (filter (λ y, ¬ P y) l)
    end.
Proof.
  induction l as [|x l IH]; intros Hcls; [done|].
  assert (∀ y, leftmost_least comparefn (x :: y)
               = pick_opt comparefn (Some x) (leftmost_least comparefn y)) as Hcons by done.
  rewrite !filter_cons, Hcons.
  rewrite IH by (intros; apply Hcls; by try right).
  destruct (leftmost_least comparefn (filter P l)) as [f|] eqn:Hf.
  - assert (f ∈ l ∧ P f) as [Hfl HPf].
    { apply leftmost_least_elem in Hf. apply list_elem_of_filter in Hf. tauto. }
    destruct (decide (P x)) as [Hx|Hx].
    + rewrite Hcons, Hf. done.
    + rewrite Hf. simpl. f_equal. apply Hcls; [by right|left|done..].
  - destruct (decide (P x)) as [Hx|Hx].
    + rewrite decide_False by tauto. rewrite Hcons, Hf.
      destruct (leftmost_least comparefn (filter (λ y, ¬ P y) l)) as [g|] eqn:Hg; [|done].
      assert (g ∈ l ∧ ¬ P g) as [Hgl HPg].
      { apply leftmost_least_elem in Hg. apply list_elem_of_filter in Hg. tauto. }
      simpl. f_equal. apply Hcls; [left|by right|done..].
    + rewrite decide_True by done. rewrite Hf. done.
Qed.

Lemma acceptable_cases s :
  s ∈ RpcSelector.ACCEPTABLE_STATUSES ↔ s = ok ∨ s = wrong_bytecode ∨ s = syncing.
Proof.
  unfold RpcSelector.ACCEPTABLE_STATUSES. rewrite !elem_of_cons, elem_of_nil. tauto.
Qed.

Lemma findFastest_leftmost_least (m : LatencyMap) :
  RpcSelector.findFastest_loop RpcSelector.ACCEPTABLE_STATUSES m
  = leftmost_least RpcSelector.compareResults (RpcSelector.validResults m).
Proof.
  unfold RpcSelector.validResults.
  set (accepted := filter (λ r, status r ∈ RpcSelector.ACCEPTABLE_STATUSES) (Object_values m)).
  assert (∀ s, s ∈ RpcSelector.ACCEPTABLE_STATUSES →
            filter (λ r, status r = s) (Object_values m)
            = filter (λ r, status r = s) accepted) as Hsame.
  { intros s Hs. unfold accepted. rewrite list_filter_filter.
    apply list_filter_iff. intros r. split; [intros ->; done|tauto]. }
  cbn [RpcSelector.findFastest_loop RpcSelector.ACCEPTABLE_STATUSES].
  rewrite !fastestForStatus_leftmost_least.
  rewrite !Hsame by (apply acceptable_cases; tauto).
  rewrite (leftmost_least_split _ (λ r, status r = ok) accepted).
  2:{ intros x y _ Hy Hx Hny.
      apply list_elem_of_filter in Hy as [Hy _]. apply acceptable_cases in Hy.
      split; [apply pick_better|apply pick_worse]; rewrite Hx;
        destruct Hy as [?|[->| ->]]; done. }
  cbv beta.
  destruct (leftmost_least _ (filter (λ r, status r = ok) accepted)); [done|].
  rewrite (leftmost_least_split _ (λ r, status r = wrong_bytecode)
             (filter (λ r, ¬ status r = ok) accepted)).
  2:{ intros x y _ Hy Hx Hny.
      apply list_elem_of_filter in Hy as [Hnok Hy].
      apply list_elem_of_filter in Hy as [Hy _]. apply acceptable_cases in Hy.
      split; [apply pick_better|apply pick_worse]; rewrite Hx;
        destruct Hy as [?|[?| ->]]; done. }
  cbv beta.
  assert (∀ s, s ≠ ok →
            filter (λ r, status r = s) (filter (λ r, ¬ status r = ok) accepted)
            = filter (λ r, status r = s) accepted) as Hnok.
  { intros s Hs. rewrite list_filter_filter. apply list_filter_iff.
    intros r. split; [tauto|]. intros ->. done. }
  rewrite Hnok by done.
  destruct (leftmost_least _ (filter (λ r, status r = wrong_bytecode) accepted)); [done|].
  rewrite <- (Hnok syncing) by done.
  assert (leftmost_least RpcSelector.compareResults
            (filter (λ r, status r = syncing) (filter (λ r, ¬ status r = ok) accepted))
          = leftmost_least RpcSelector.compareResults
              (filter (λ r, ¬ status r = wrong_bytecode)
                 (filter (λ r, ¬ status r = ok) accepted))) as ->.
  { f_equal. unfold accepted. rewrite !list_filter_filter. apply list_filter_iff.
    intros r. pose proof (acceptable_cases (status r)) as Hc.
    destruct (status r); intuition congruence. }
  by destruct (leftmost_least _ _).
Qed.

(** C5. The URL stored as fastest ([newFastest?.url ?? null]) is the first
    element of the ranking of the same map, and null exactly when the ranking
    is empty. *)
Theorem findFastest_is_head_of_ranking (latencyMap0 : option LatencyMap) :
  url <$> RpcSelector._findFastestInMap latencyMap0
  = head (RpcSelector._rankResults latencyMap0).
Proof.
  destruct latencyMap0 as [m|]; [|done].
  unfold RpcSelector._findFastestInMap, RpcSelector._rankResults, RpcSelector.rankedResults.
  rewrite findFastest_leftmost_least, <- head_Array_sort.
  by destruct (Array_sort _ _).
Qed.

(** ** Probing (latency-tester.ts) *)

(** Closes a goal [status ∈ list → _] when the status is not in the list. *)
Ltac status_not_listed :=
  let H := fresh in
  intros H; exfalso; decompose [or] H; (discriminate || contradiction).

(** C3, as the code has it. A result of [testSingleRpc] with status
    timeout, http_error, rpc_error or network_error has latency Infinity; one
    with status ok, syncing or wrong_bytecode has the measured time, the
    difference of the two readings of [Date.now()], which is finite, and not
    negative exactly when the second reading is not before the first. *)
Theorem testSingleRpc_latency (PERMIT2_BYTECODE_PREFIX : string)
    (ToString JSON_stringify : option Json → string) (url0 : string) (x : ProbeExchange) :
  let r := LatencyTester.testSingleRpc PERMIT2_BYTECODE_PREFIX ToString JSON_stringify url0 x in
  (status r ∈ [timeout; http_error; rpc_error; network_error] → latency r = Infinity) ∧
  (status r ∈ [ok; syncing; wrong_bytecode] →
     ∃ ms, latency r = Finite ms ∧ ms = (endTime x - startTime x)%Z ∧
           ((0 ≤ ms)%Z ↔ (startTime x ≤ endTime x)%Z)) ∧
  (status r ∈ [timeout; http_error; rpc_error; network_error]
   ∨ status r ∈ [ok; syncing; wrong_bytecode]).
Proof.
  intros r. subst r. unfold LatencyTester.testSingleRpc.
  repeat case_match; simpl; rewrite !elem_of_cons, !elem_of_nil;
    (split;
     [ first [done | status_not_listed]
     | split;
       [ first [status_not_listed | intros _; eexists; split; [done|split; [done|lia]]]
       | tauto ] ]).
Qed.

(** C3, as stated, fails: [Date.now()] is the wall clock, and when it is
    set back 42 ms while a healthy node is probed, the result is ok with
    latency -42. *)
Lemma testSingleRpc_negative_latency :
  let x := {| startTime := 1042;
              getCodeFetch := FetchResponds {| resp_ok := true; resp_status := 200;
                                               resp_statusText := "OK";
                                               resp_json := inr (JObject [("result", JString "0x6040abc")]) |};
              syncingFetch := FetchResponds {| resp_ok := true; resp_status := 200;
                                               resp_statusText := "OK";
                                               resp_json := inr (JObject [("result", JBool false)]) |};
              syncingSettlesFirst := true;
              endTime := 1000 |} in
  let r := LatencyTester.testSingleRpc "0x6040" (λ _, "") (λ _, "") "https://A" x in
  status r = ok ∧ latency r = Finite (-42) ∧
  ¬ ∃ ms, latency r = Finite ms ∧ (0 ≤ ms)%Z.
Proof.
  intros x r. split; [reflexivity|]. split; [reflexivity|].
  intros (ms & Hms & Hpos). vm_compute in Hms. injection Hms as <-. lia.
Qed.

(** Reading and writing a JS object. *)
Section RecordFacts.
Context {V : Type}.
Implicit Types (obj : JsRecord V) (k : string) (v : V).

Lemma Record_get_set obj k v k' :
  Record_get (Record_set obj k v) k'
  = if decide (k = k') then Some v else Record_get obj k'.
Proof.
  induction obj as [|[k0 v0] obj IH]; simpl.
  - by destruct (decide (k = k')).
  - destruct (decide (k0 = k)) as [->|Hne]; simpl.
    + by destruct (decide (k = k')).
    + rewrite IH. destruct (decide (k0 = k')) as [->|]; [|done].
      by rewrite decide_False.
Qed.

Lemma elem_of_keys_Record_set obj k v k' :
  k' ∈ Object_keys (Record_set obj k v) ↔ k' = k ∨ k' ∈ Object_keys obj.
Proof.
  unfold Object_keys. induction obj as [|[k0 v0] obj IH]; simpl.
  - rewrite elem_of_cons, elem_of_nil. tauto.
  - destruct (decide (k0 = k)) as [->|Hne]; simpl.
    + rewrite !elem_of_cons. tauto.
    + rewrite !elem_of_cons, IH. tauto.
Qed.

Lemma NoDup_keys_Record_set obj k v :
  NoDup (Object_keys obj) → NoDup (Object_keys (Record_set obj k v)).
Proof.
  unfold Object_keys. induction obj as [|[k0 v0] obj IH]; simpl; intros Hnd.
  - apply NoDup_singleton.
  - apply NoDup_cons in Hnd as [Hk0 Hnd].
    destruct (decide (k0 = k)) as [->|Hne]; simpl.
    + by apply NoDup_cons.
    + apply NoDup_cons. split; [|by apply IH].
      intros Hin. apply (elem_of_keys_Record_set obj k v k0) in Hin.
      destruct Hin; [congruence|done].
Qed.
End RecordFacts.

Section TestRpcUrls.
Variable PERMIT2_BYTECODE_PREFIX : string.
Variables ToString JSON_stringify : option Json → string.

Let settledResult := LatencyTester.settledResult PERMIT2_BYTECODE_PREFIX ToString JSON_stringify.
Let settle_from := LatencyTester.settle_from PERMIT2_BYTECODE_PREFIX ToString JSON_stringify.
Let testRpcUrls := LatencyTester.testRpcUrls PERMIT2_BYTECODE_PREFIX ToString JSON_stringify.

Lemma settle_from_keys network index urls resultMap u :
  u ∈ Object_keys (settle_from network index urls resultMap)
  ↔ u ∈ urls ∨ u ∈ Object_keys resultMap.
Proof.
  revert index resultMap. induction urls as [|url0 urls IH]; intros index resultMap; simpl.
  - rewrite elem_of_nil. tauto.
  - unfold settle_from in *. simpl. rewrite IH. unfold LatencyTester.settle.
    rewrite elem_of_keys_Record_set, elem_of_cons. tauto.
Qed.

Lemma settle_from_NoDup network index urls resultMap :
  NoDup (Object_keys resultMap) →
  NoDup (Object_keys (settle_from network index urls resultMap)).
Proof.
  revert index resultMap. induction urls as [|url0 urls IH]; intros index resultMap Hnd;
    [done|].
  unfold settle_from in *. simpl. apply IH. by apply NoDup_keys_Record_set.
Qed.

(** Probing other URLs leaves the entry of [u] alone. *)
Lemma settle_from_other network index urls resultMap u :
  u ∉ urls →
  Record_get (settle_from network index urls resultMap) u = Record_get resultMap u.
Proof.
  revert index resultMap. induction urls as [|url0 urls IH]; intros index resultMap Hu;
    [done|].
  apply not_elem_of_cons in Hu as [Hne Hu].
  unfold settle_from in *. simpl. rewrite IH by done. unfold LatencyTester.settle.
  rewrite Record_get_set. by rewrite decide_False.
Qed.

(** The entry of a URL is what its last probe settled as. *)
Lemma settle_from_last network index urls resultMap i u :
  urls !! i = Some u →
  (∀ j, i < j → urls !! j ≠ Some u) →
  Record_get (settle_from network index urls resultMap) u
  = Some (settledResult u (network (index + i) u)).
Proof.
  revert index resultMap i.
  induction urls as [|url0 urls IH]; intros index resultMap i Hi Hlast; [done|].
  unfold settle_from in *. destruct i as [|i]; simpl in *.
  - injection Hi as ->. rewrite settle_from_other.
    + unfold LatencyTester.settle. rewrite Record_get_set, decide_True by done.
      by rewrite Nat.add_0_r.
    + intros Hin. apply list_elem_of_lookup in Hin as [j Hj].
      apply (Hlast (S j)); [lia|done].
  - rewrite (IH (S index) _ i Hi).
    + do 3 f_equal. lia.
    + intros j Hj. apply (Hlast (S j)). lia.
Qed.

(** The entry of a URL depends on the network through its own probes only. *)
Lemma settle_from_ext network network' index urls resultMap resultMap' u :
  (∀ i, network' i u = network i u) →
  Record_get resultMap' u = Record_get resultMap u →
  Record_get (settle_from network' index urls resultMap') u
  = Record_get (settle_from network index urls resultMap) u.
Proof.
  intros Hnet. revert index resultMap resultMap'.
  induction urls as [|url0 urls IH]; intros index resultMap resultMap' Hget; [done|].
  unfold settle_from in *. simpl. apply IH. unfold LatencyTester.settle.
  rewrite !Record_get_set. destruct (decide (url0 = u)) as [->|]; [|done].
  by rewrite Hnet.
Qed.

(** C9. [testRpcUrls] is total: whatever the probes meet, it returns a map
    with exactly one entry per input URL.  The entry of a URL is what the
    (last) probe of that URL settled as, so it is the same under any other
    behaviour of the probes of the other URLs, and a rejected probe is
    recorded as network_error with latency Infinity. *)
Theorem testRpcUrls_one_entry_per_url (network : nat → string → ProbeRun)
    (urls : list string) :
  let resultMap := testRpcUrls network urls in
  NoDup (Object_keys resultMap) ∧
  (∀ u, u ∈ Object_keys resultMap ↔ u ∈ urls) ∧
  (∀ u, is_Some (Record_get resultMap u) ↔ u ∈ urls) ∧
  (∀ i u, urls !! i = Some u → (∀ j, i < j → urls !! j ≠ Some u) →
          Record_get resultMap u = Some (settledResult u (network i u))) ∧
  (∀ u reason,
     settledResult u (Rejects reason)
     = {| url := u; latency := Infinity; status := network_error;
          error := error (settledResult u (Rejects reason)) |}) ∧
  (∀ network' u, (∀ i, network' i u = network i u) →
                 Record_get (testRpcUrls network' urls) u = Record_get resultMap u).
Proof.
  intros resultMap.
  assert (resultMap = settle_from network 0 urls []) as Hmap.
  { subst resultMap. unfold testRpcUrls, LatencyTester.testRpcUrls. by destruct urls. }
  assert (∀ u, u ∈ Object_keys resultMap ↔ u ∈ urls) as Hkeys.
  { intros u. rewrite Hmap, settle_from_keys. unfold Object_keys. simpl.
    rewrite elem_of_nil. tauto. }
  split_and!.
  - rewrite Hmap. apply settle_from_NoDup. constructor.
  - done.
  - intros u. rewrite <- Hkeys. unfold Object_keys.
    generalize resultMap. clear. intros obj.
    induction obj as [|[k v] obj IH]; simpl.
    + rewrite elem_of_nil. split; [by intros [? ?]|done].
    + rewrite elem_of_cons. destruct (decide (k = u)) as [->|Hne].
      * split; [by left|by eexists].
      * rewrite IH. split; [by right|]. intros [?|?]; [congruence|done].
  - intros i u Hi Hlast. rewrite Hmap.
    by rewrite (settle_from_last network 0 urls [] i u Hi Hlast).
  - done.
  - intros network' u Hnet. rewrite Hmap.
    assert (testRpcUrls network' urls = settle_from network' 0 urls []) as ->.
    { unfold testRpcUrls, LatencyTester.testRpcUrls. by destruct urls. }
    by apply settle_from_ext.
Qed.
End TestRpcUrls.

(** ** Dispatching (permit2-rpc-manager.ts) *)

(** C2, as the code has it. On a 2xx response whose JSON body is an object
    with neither a [result] nor an [error] property, [executeRpcCall] does
    not fail: it returns [undefined], the missing result. *)
Theorem executeRpcCall_missing_result_returns_undefined
    (ToString : option Json → string) (opts : Options) (r : Response)
    (fields : list (string * Json)) :
  resp_ok r = true →
  resp_json r = inr (JObject fields) →
  js_get (JObject fields) "result" = None →
  js_get (JObject fields) "error" = None →
  Permit2RpcManager.executeRpcCall ToString opts (FetchResponds r) = inr None.
Proof.
  intros Hok Hjson Hresult Herror. unfold Permit2RpcManager.executeRpcCall.
  rewrite Hok, Hjson. cbn [negb]. rewrite Herror. cbn [js_truthy]. by rewrite Hresult.
Qed.

Lemma executeRpcCall_missing_result_witness :
  let fields := [("jsonrpc", JString "2.0"); ("id", JNumber 1)] in
  resp_ok (sampleResponse (JObject fields)) = true ∧
  Permit2RpcManager.executeRpcCall (λ _, "") sampleOptions
    (FetchResponds (sampleResponse (JObject fields))) = inr None.
Proof.
  intros fields. split; [reflexivity|].
  apply (executeRpcCall_missing_result_returns_undefined (λ _, "") sampleOptions
           (sampleResponse (JObject fields)) fields); reflexivity.
Defined.

(** C2, as stated, fails: this 2xx response has a body with neither
    [result] nor [error], and the call returns a value, [undefined]. *)
Lemma executeRpcCall_malformed_not_rejected :
  let body := JObject [("jsonrpc", JString "2.0"); ("id", JNumber 1)] in
  resp_ok (sampleResponse body) = true ∧
  js_get body "result" = None ∧
  js_get body "error" = None ∧
  Permit2RpcManager.executeRpcCall (λ _, "") sampleOptions
    (FetchResponds (sampleResponse body)) = inr None ∧
  ∀ e, Permit2RpcManager.executeRpcCall (λ _, "") sampleOptions
         (FetchResponds (sampleResponse body)) ≠ inl e.
Proof. vm_compute. split_and!; try reflexivity. intros e. discriminate. Qed.

Lemma rotate_nat_add_mod base offset len :
  rotate_nat_add base offset len = (base + offset) `mod` len.
Proof.
  unfold rotate_nat_add.
  rewrite Z2Nat.inj_mod, Z2Nat.inj_add, !Nat2Z.id; lia.
Qed.

Lemma omap_total {A B} (f : A → option B) (g : A → B) (l : list A) :
  (∀ x, x ∈ l → f x = Some (g x)) → omap f l = g <$> l.
Proof.
  induction l as [|x l IH]; intros Hf; [done|].
  change (omap f (x :: l)) with (match f x with Some y => y :: omap f l | None => omap f l end).
  rewrite Hf by left. rewrite IH; [done|]. intros y Hy. apply Hf. by right.
Qed.

(** Over [0 .. n-1] the loop walks the list rotated to the start index. *)
Lemma visitedUrls_seq (rankedRpcList : list string) (startIndex : nat) :
  visitedUrls rankedRpcList startIndex (seq 0 (length rankedRpcList))
  = attemptOrder rankedRpcList startIndex.
Proof.
  unfold visitedUrls, attemptOrder. f_equal.
  set (n := length rankedRpcList).
  rewrite (omap_total _ (λ i, default "" (rankedRpcList !! ((startIndex + i) `mod` n)))).
  - apply list_eq. intros i. rewrite list_lookup_fmap.
    destruct (decide (i < n)) as [Hi|Hi].
    + rewrite lookup_seq_lt by done. rewrite lookup_rotate_r, rotate_nat_add_mod by done.
      simpl. fold n.
      assert ((startIndex + i) `mod` n < n) as Hlt by (apply Nat.mod_upper_bound; lia).
      apply lookup_lt_is_Some in Hlt as [u Hu]. by rewrite Hu.
    + rewrite lookup_seq_ge by lia. simpl.
      rewrite lookup_ge_None_2; [done|]. rewrite length_rotate. fold n. lia.
  - intros i Hi. apply elem_of_seq in Hi.
    assert ((startIndex + i) `mod` n < n) as Hlt by (apply Nat.mod_upper_bound; lia).
    apply lookup_lt_is_Some in Hlt as [u Hu]. by rewrite Hu.
Qed.

Lemma lastErrorOf_cons_failed e outcomes :
  (∀ j o, outcomes !! j = Some o → ∃ e', o = inl e') →
  lastErrorOf (inl e :: outcomes)
  = match lastErrorOf outcomes with Some e' => Some e' | None => Some e end.
Proof.
  intros Hall. unfold lastErrorOf.
  destruct outcomes as [|o outcomes] using rev_ind; [done|].
  rewrite app_comm_cons, !last_snoc.
  destruct (Hall (length outcomes) o) as [e' ->]; [|done].
  by rewrite lookup_app_r, Nat.sub_diag.
Qed.

(** ** The cache manager touches its own part of the state only *)

#[global] Instance cache_only_refl : Reflexive cache_only.
Proof. by intros st. Qed.

#[global] Instance cache_only_trans : Transitive cache_only.
Proof.
  intros st1 st2 st3 (? & ? & ? & ?) (? & ? & ? & ?). unfold cache_only. split_and!; congruence.
Qed.

Lemma loadCache_cache_only opts st : cache_only st (CacheManager.loadCache opts st).
Proof. unfold CacheManager.loadCache. by repeat case_match. Qed.

Lemma saveCache_cache_only opts st : cache_only st (CacheManager.saveCache opts st).
Proof. unfold CacheManager.saveCache. by repeat case_match. Qed.

Lemma getRawChainCache_cache_only opts id st :
  cache_only st (CacheManager.getRawChainCache opts id st).2.
Proof. apply loadCache_cache_only. Qed.

Lemma getChainCache_cache_only opts env id st :
  cache_only st (CacheManager.getChainCache opts env id st).2.
Proof.
  unfold CacheManager.getChainCache, CacheManager.getRawChainCache.
  pose proof (loadCache_cache_only opts st) as (? & ? & ? & ?).
  unfold read_clock, cache_only. by repeat case_match; simplify_eq/=.
Qed.

Lemma getFastestRpc_cache_only opts env id st :
  cache_only st (CacheManager.getFastestRpc opts env id st).2.
Proof.
  unfold CacheManager.getFastestRpc.
  pose proof (getChainCache_cache_only opts env id st).
  by destruct (CacheManager.getChainCache opts env id st).
Qed.

Lemma getLatencyMap_cache_only opts id st :
  cache_only st (CacheManager.getLatencyMap opts id st).2.
Proof. apply loadCache_cache_only. Qed.

Lemma updateChainCache_cache_only opts env id m f st :
  cache_only st (CacheManager.updateChainCache opts env id m f st).
Proof.
  unfold CacheManager.updateChainCache. destruct (disabled opts); [done|].
  cbn [read_clock]. etransitivity; [apply (loadCache_cache_only opts)|].
  etransitivity; [|apply saveCache_cache_only]. done.
Qed.

Section Dispatch.
Variable PERMIT2_BYTECODE_PREFIX : string.
Variables ToString JSON_stringify : option Json → string.
Variable opts : Options.
Variable env : Environment.
Variable method : string.
Variable params : list Json.

Let executeRpcCall := Permit2RpcManager.executeRpcCall ToString opts.
Let send_loop := Permit2RpcManager.send_loop ToString opts env method params.
Let outcomes := attemptOutcomes ToString opts env method params.
Let getRankedRpcList :=
  RpcSelector.getRankedRpcList PERMIT2_BYTECODE_PREFIX ToString JSON_stringify opts env.
Let send id := Permit2RpcManager.send PERMIT2_BYTECODE_PREFIX ToString JSON_stringify
                 opts env id method params.

Lemma outcomes_cons base u order :
  outcomes base (u :: order)
  = executeRpcCall (upstream env base u method params) :: outcomes (S base) order.
Proof.
  unfold outcomes, attemptOutcomes. rewrite imap_cons, Nat.add_0_r. f_equal.
  apply imap_ext. intros j v _. simpl. do 2 f_equal. lia.
Qed.

(** The loop of [send], by what the URLs it reaches answer: it stops at the
    first success, and otherwise has fetched them all and keeps the error of
    the last. It touches nothing but the fetch log. *)
Lemma send_loop_spec rankedRpcList startIndex iterations lastError st :
  let visited := visitedUrls rankedRpcList startIndex iterations in
  let outs := outcomes (length (fetchLog st)) visited in
  let exit_st := send_loop rankedRpcList startIndex iterations lastError st in
  rpcIndexMap exit_st.2 = rpcIndexMap st ∧
  cache exit_st.2 = cache st ∧
  probeLog exit_st.2 = probeLog st ∧
  ongoingLatencyTests exit_st.2 = ongoingLatencyTests st ∧
  match exit_st.1 with
  | Permit2RpcManager.Returns result =>
      ∃ p, fetchLog exit_st.2 = (fetchLog st ++ take (S p) visited)%list ∧
           outs !! p = Some (inr result) ∧
           ∀ j, j < p → ∃ e, outs !! j = Some (inl e)
  | Permit2RpcManager.Exhausted lastError' =>
      fetchLog exit_st.2 = (fetchLog st ++ visited)%list ∧
      (∀ j o, outs !! j = Some o → ∃ e, o = inl e) ∧
      lastError' = match lastErrorOf outs with Some e => Some e | None => lastError end
  end.
Proof.
  revert lastError st. induction iterations as [|i iterations IH]; intros lastError st.
  - simpl. split_and!; try done. by rewrite app_nil_r.
  - unfold visitedUrls in *. cbn zeta in *.
    change (omap ?f (i :: ?l)) with (match f i with Some y => y :: omap f l | None => omap f l end).
    unfold send_loop in *. cbn [Permit2RpcManager.send_loop].
    destruct (rankedRpcList !! ((startIndex + i) `mod` length rankedRpcList)) as [u|];
      [|apply IH].
    rewrite filter_cons.
    destruct (decide (u ≠ "")) as [Hu|Hu].
    2:{ apply dec_stable in Hu. subst u. apply IH. }
    destruct u as [|a u]; [done|].
    set (url0 := String a u) in *.
    rewrite outcomes_cons. fold executeRpcCall.
    destruct (executeRpcCall (upstream env (length (fetchLog st)) url0 method params))
      as [e|result] eqn:Hexec.
    + specialize (IH (Some e) (log_fetch url0 st)).
      destruct IH as (Hidx & Hcache & Hprobe & Hongoing & IH).
      replace (length (fetchLog (log_fetch url0 st))) with (S (length (fetchLog st))) in IH
        by (simpl; rewrite length_app; simpl; lia).
      split_and!; [done..|].
      destruct (Permit2RpcManager.send_loop _ _ _ _ _ _ _ _ _ _).1 as [result|lastError'].
      * destruct IH as (p & Hlog & Hp & Hbefore). exists (S p). split_and!.
        -- rewrite Hlog. simpl. by rewrite <- app_assoc.
        -- done.
        -- intros [|j] Hj; [by eexists|]. apply Hbefore. lia.
      * destruct IH as (Hlog & Hall & Hlast). split_and!.
        -- rewrite Hlog. simpl. by rewrite <- app_assoc.
        -- intros [|j] o Ho; [injection Ho as <-; by eexists|]. by eapply Hall.
        -- rewrite lastErrorOf_cons_failed by done. rewrite Hlast.
           by destruct (lastErrorOf _).
    + simpl. split_and!; [done..|]. exists 0. split_and!; [done|done|lia].
Qed.

(** [getRankedRpcList] leaves the round-robin indices and the fetch log alone. *)
Lemma getRankedRpcList_frame id st :
  rpcIndexMap (getRankedRpcList id st).2 = rpcIndexMap st ∧
  fetchLog (getRankedRpcList id st).2 = fetchLog st.
Proof.
  unfold getRankedRpcList, RpcSelector.getRankedRpcList.
  pose proof (getLatencyMap_cache_only opts id st) as (Hi1 & Hf1 & _).
  destruct (CacheManager.getLatencyMap opts id st) as [latencyMap0 st1].
  pose proof (getFastestRpc_cache_only opts env id st1) as (Hi2 & Hf2 & _).
  destruct (CacheManager.getFastestRpc opts env id st1) as [fastestCachedRpc st2].
  cbn [fst snd] in *.
  destruct (negb _); [|cbn [fst snd]; split; congruence].
  destruct (ongoingLatencyTests st2 !! id); [cbn [fst snd]; split; congruence|].
  destruct (ChainlistDataSource.getRpcUrls opts id) as [|u urls];
    [cbn [fst snd]; split; congruence|].
  cbn [fst snd set_ongoingLatencyTests rpcIndexMap fetchLog].
  match goal with
  | |- context [CacheManager.updateChainCache opts env id ?m ?f ?st3] =>
      pose proof (updateChainCache_cache_only opts env id m f st3) as (Hi3 & Hf3 & _)
  end.
  rewrite Hi3, Hf3. cbn [log_probe rpcIndexMap fetchLog]. split; congruence.
Qed.

(** [send] on a non-empty ranked list, step by step. *)
Lemma send_unfold id st :
  let ranked := (getRankedRpcList id st).1 in
  let st1 := (getRankedRpcList id st).2 in
  let start_st2 := Permit2RpcManager.roundRobinStart id (length ranked) st1 in
  let exit_st := send_loop ranked start_st2.1 (seq 0 (length ranked)) None start_st2.2 in
  ranked ≠ [] →
  send id st
  = (match exit_st.1 with
     | Permit2RpcManager.Returns result => inr result
     | Permit2RpcManager.Exhausted lastError =>
         inl (Permit2RpcManager.allFailedError id lastError)
     end, exit_st.2).
Proof.
  unfold send, Permit2RpcManager.send. fold getRankedRpcList.
  destruct (getRankedRpcList id st) as [ranked st1]. cbn [fst snd]. intros Hne.
  destruct ranked as [|u ranked]; [done|].
  destruct (Permit2RpcManager.roundRobinStart _ _ _) as [startIndex st2]. cbn [fst snd].
  fold send_loop. by destruct (send_loop _ _ _ _ _) as [[result|lastError] st3].
Qed.

Lemma attemptOrder_submseteq ranked startIndex :
  attemptOrder ranked startIndex ⊆+ ranked.
Proof.
  unfold attemptOrder. etransitivity; [apply sublist_submseteq, sublist_filter|].
  unfold rotate. rewrite Permutation_app_comm. by rewrite take_drop.
Qed.


(** After the ranked list is obtained, [send] runs no probe and leaves the
    cache and the in-flight tests alone. *)
Lemma send_selector_frame id st :
  probeLog (send id st).2 = probeLog (getRankedRpcList id st).2 ∧
  ongoingLatencyTests (send id st).2 = ongoingLatencyTests (getRankedRpcList id st).2 ∧
  cache (send id st).2 = cache (getRankedRpcList id st).2.
Proof.
  destruct (decide ((getRankedRpcList id st).1 = [])) as [Hempty|Hne].
  - unfold send, Permit2RpcManager.send. fold getRankedRpcList.
    destruct (getRankedRpcList id st) as [r st1]. simpl in *. by rewrite Hempty.
  - rewrite (send_unfold id st Hne). cbn [snd].
    match goal with
    | |- context [send_loop ?r ?start ?its None ?st2] =>
        pose proof (send_loop_spec r start its None st2) as (_ & Hc & Hp & Ho & _)
    end.
    by rewrite Hc, Hp, Ho.
Qed.


Let sendsL id := sends PERMIT2_BYTECODE_PREFIX ToString JSON_stringify opts env id method params.


End Dispatch.


(** ** Selection (rpc-selector.ts) *)

Lemma set_ongoingLatencyTests_same st :
  set_ongoingLatencyTests (ongoingLatencyTests st) st = st.
Proof. by destruct st. Qed.

Lemma loadCache_loaded opts st :
  disabled opts = false → cacheLoaded (CacheManager.loadCache opts st) = true.
Proof.
  intros Hd. unfold CacheManager.loadCache. rewrite Hd. simpl.
  destruct (cacheLoaded st) eqn:Hl; [done|]. by repeat case_match.
Qed.

Lemma loadCache_when_loaded opts st :
  cacheLoaded st = true → CacheManager.loadCache opts st = st.
Proof.
  intros Hl. unfold CacheManager.loadCache. rewrite Hl. by rewrite orb_true_r.
Qed.

Lemma loadCache_clockReads opts st :
  clockReads (CacheManager.loadCache opts st) = clockReads st.
Proof. unfold CacheManager.loadCache. by repeat case_match. Qed.

Lemma loadCache_disabled opts st :
  disabled opts = true → CacheManager.loadCache opts st = st.
Proof. intros Hd. unfold CacheManager.loadCache. by rewrite Hd. Qed.

Section Selection.
Variable PERMIT2_BYTECODE_PREFIX : string.
Variables ToString JSON_stringify : option Json → string.
Variable env : Environment.

Let testRpcUrls := LatencyTester.testRpcUrls PERMIT2_BYTECODE_PREFIX ToString JSON_stringify.
Let getRankedRpcList :=
  RpcSelector.getRankedRpcList PERMIT2_BYTECODE_PREFIX ToString JSON_stringify.

(** The two branches of [getRankedRpcList] that matter below. *)
Lemma getRankedRpcList_valid opts id st :
  let lm := CacheManager.getLatencyMap opts id st in
  let fastest := CacheManager.getFastestRpc opts env id lm.2 in
  RpcSelector.cacheIsValid lm.1 fastest.1 = true →
  getRankedRpcList opts env id st = (RpcSelector._rankResults lm.1, fastest.2).
Proof.
  intros lm fastest Hvalid. subst lm fastest.
  unfold getRankedRpcList, RpcSelector.getRankedRpcList.
  destruct (CacheManager.getLatencyMap opts id st) as [latencyMap0 st1].
  cbn [fst snd] in *.
  destruct (CacheManager.getFastestRpc opts env id st1) as [fastestCachedRpc st2].
  cbn [fst snd] in *. by rewrite Hvalid.
Qed.

Lemma getRankedRpcList_probes opts id st :
  let lm := CacheManager.getLatencyMap opts id st in
  let fastest := CacheManager.getFastestRpc opts env id lm.2 in
  let urls := ChainlistDataSource.getRpcUrls opts id in
  let tested := testRpcUrls (probeNetwork env (length (probeLog st))) urls in
  RpcSelector.cacheIsValid lm.1 fastest.1 = false →
  ongoingLatencyTests st !! id = None →
  urls ≠ [] →
  getRankedRpcList opts env id st
  = (RpcSelector._rankResults (Some tested),
     CacheManager.updateChainCache opts env id tested
       (url <$> RpcSelector._findFastestInMap (Some tested))
       (log_probe urls fastest.2)).
Proof.
  intros lm fastest urls tested Hinvalid Hongoing Hurls. subst lm fastest tested.
  unfold getRankedRpcList, RpcSelector.getRankedRpcList.
  pose proof (getLatencyMap_cache_only opts id st) as (_ & _ & Hp1 & Ho1).
  destruct (CacheManager.getLatencyMap opts id st) as [latencyMap0 st1].
  cbn [fst snd] in *.
  pose proof (getFastestRpc_cache_only opts env id st1) as (_ & _ & Hp2 & Ho2).
  destruct (CacheManager.getFastestRpc opts env id st1) as [fastestCachedRpc st2].
  cbn [fst snd] in *. rewrite Hinvalid. cbn [negb].
  rewrite Ho2, Ho1, Hongoing. fold urls.
  destruct urls as [|u urls'] eqn:Hu; [done|]. rewrite <- Hu. clear Hu.
  rewrite Hp2, Hp1. fold testRpcUrls. f_equal.
  match goal with
  | |- context [CacheManager.updateChainCache opts env id ?m ?f ?st3] =>
      pose proof (updateChainCache_cache_only opts env id m f st3) as (_ & _ & _ & Ho3);
      set (st4 := CacheManager.updateChainCache opts env id m f st3) in *
  end.
  cbn [log_probe ongoingLatencyTests] in Ho3. rewrite Ho3, Ho2, Ho1.
  rewrite delete_id by done. rewrite <- Ho1, <- Ho2, <- Ho3.
  apply set_ongoingLatencyTests_same.
Qed.

(** With a fresh entry whose fastest URL is still acceptable in its map,
    [getRankedRpcList] ranks the cached map. *)
Lemma getRankedRpcList_cached opts id st c f res :
  disabled opts = false →
  cache (CacheManager.loadCache opts st) !! id = Some c →
  (Date_now env (clockReads st) - lastTested c < cacheTtlMs opts)%Z →
  fastestRpc c = Some f → f ≠ "" →
  Record_get (latencyMap c) f = Some res →
  status res ∈ RpcSelector.ACCEPTABLE_STATUSES →
  getRankedRpcList opts env id st
  = (RpcSelector._rankResults (Some (latencyMap c)),
     (read_clock env (CacheManager.loadCache opts st)).2).
Proof.
  intros Hd Hc Hfresh Hf Hne Hres Hacc.
  pose proof (getRankedRpcList_valid opts id st) as Hvalid. cbn zeta in Hvalid.
  unfold CacheManager.getLatencyMap, CacheManager.getFastestRpc,
    CacheManager.getChainCache, CacheManager.getRawChainCache in Hvalid.
  rewrite Hd in Hvalid. cbn [fst snd] in Hvalid.
  rewrite (loadCache_when_loaded opts (CacheManager.loadCache opts st)) in Hvalid
    by (by apply loadCache_loaded).
  rewrite Hc in Hvalid. cbn [fmap option_fmap option_map read_clock] in Hvalid.
  rewrite loadCache_clockReads in Hvalid.
  rewrite bool_decide_eq_true_2 in Hvalid by done.
  cbn [fst snd mbind option_bind] in Hvalid. rewrite Hf in Hvalid.
  cbn [read_clock snd]. rewrite loadCache_clockReads.
  apply Hvalid. unfold RpcSelector.cacheIsValid. rewrite Hres.
  rewrite bool_decide_eq_true_2 by done.
  destruct (String.eqb_spec f ""); done.
Qed.

(** C10. When the entry of a chain is fresh and its fastest URL has an
    acceptable status in its map, [getRankedRpcList] returns the ranking of
    the cached map, runs no probe, and does the same over any whitelist: the
    URLs it returns are not checked against the whitelist of the process. *)
Theorem cached_ranking_ignores_whitelist (opts : Options) (id : Z) (st : State)
    (c : ChainCache) (f : string) (res : LatencyTestResult) :
  disabled opts = false →
  cache (CacheManager.loadCache opts st) !! id = Some c →
  (Date_now env (clockReads st) - lastTested c < cacheTtlMs opts)%Z →
  fastestRpc c = Some f → f ≠ "" →
  Record_get (latencyMap c) f = Some res →
  status res ∈ RpcSelector.ACCEPTABLE_STATUSES →
  (getRankedRpcList opts env id st).1 = RpcSelector._rankResults (Some (latencyMap c)) ∧
  probeLog (getRankedRpcList opts env id st).2 = probeLog st ∧
  ∀ whitelist,
    getRankedRpcList (withWhitelist whitelist opts) env id st
    = getRankedRpcList opts env id st.
Proof.
  intros Hd Hc Hfresh Hf Hne Hres Hacc.
  rewrite (getRankedRpcList_cached opts id st c f res) by done.
  split_and!.
  - done.
  - cbn [snd read_clock probeLog]. apply loadCache_cache_only.
  - intros whitelist.
    by rewrite (getRankedRpcList_cached (withWhitelist whitelist opts) id st c f res).
Qed.
End Selection.

(** A KV store left by an earlier process: chain 100 was last tested at
    4000 ms, with one healthy URL that is not in the whitelist of
    [sampleOptions]. *)
Lemma cached_ranking_ignores_whitelist_witness :
  let res := {| url := "https://X"; latency := Finite 42; status := ok; error := None |} in
  let c := {| fastestRpc := Some "https://X"; latencyMap := [("https://X", res)];
              lastTested := 4000 |} in
  let st := set_kv (KvHolds (Some {[ 100%Z := c ]})) initialState in
  ("https://X" ∉ ChainlistDataSource.getRpcUrls sampleOptions 100) ∧
  (RpcSelector.getRankedRpcList samplePrefix sampleToString sampleToString
     sampleOptions healthyEnv 100 st).1 = ["https://X"].
Proof.
  intros res c st. split.
  - intros Hin. apply list_elem_of_In in Hin. vm_compute in Hin.
    decompose [or] Hin; (discriminate || contradiction).
  - assert (cache (CacheManager.loadCache sampleOptions st) !! 100%Z = Some c) as Hc
      by (vm_compute; reflexivity).
    assert (Date_now healthyEnv (clockReads st) - lastTested c < cacheTtlMs sampleOptions)%Z
      as Hfresh by (vm_compute; reflexivity).
    assert (status res ∈ RpcSelector.ACCEPTABLE_STATUSES) as Hacc by left.
    destruct (cached_ranking_ignores_whitelist samplePrefix sampleToString sampleToString
                healthyEnv sampleOptions 100 st c "https://X" res
                eq_refl Hc Hfresh eq_refl ltac:(discriminate) eq_refl Hacc) as (-> & _).
    reflexivity.
Defined.

(** ** Caching disabled *)

Section Disabled.
Variable PERMIT2_BYTECODE_PREFIX : string.
Variables ToString JSON_stringify : option Json → string.
Variable opts : Options.
Variable env : Environment.
Hypothesis disableCache : disabled opts = true.

Let testRpcUrls := LatencyTester.testRpcUrls PERMIT2_BYTECODE_PREFIX ToString JSON_stringify.
Let getRankedRpcList :=
  RpcSelector.getRankedRpcList PERMIT2_BYTECODE_PREFIX ToString JSON_stringify opts env.
Let sendsL := sends PERMIT2_BYTECODE_PREFIX ToString JSON_stringify opts env.

Lemma getChainCache_disabled id st :
  CacheManager.getChainCache opts env id st = (None, st).
Proof. unfold CacheManager.getChainCache. by rewrite disableCache. Qed.

Lemma updateChainCache_disabled id m f st :
  CacheManager.updateChainCache opts env id m f st = st.
Proof. unfold CacheManager.updateChainCache. by rewrite disableCache. Qed.

(** With the cache disabled every [getRankedRpcList] that has URLs to test
    and no test to wait for runs the prober, and changes nothing else. *)
Lemma getRankedRpcList_disabled id st :
  let urls := ChainlistDataSource.getRpcUrls opts id in
  ongoingLatencyTests st !! id = None → urls ≠ [] →
  getRankedRpcList id st
  = (RpcSelector._rankResults
       (Some (testRpcUrls (probeNetwork env (length (probeLog st))) urls)),
     log_probe urls st).
Proof.
  intros urls Hongoing Hurls.
  pose proof (getRankedRpcList_probes PERMIT2_BYTECODE_PREFIX ToString JSON_stringify env
                opts id st) as Hprobes.
  cbn zeta in Hprobes. fold getRankedRpcList urls testRpcUrls in Hprobes.
  unfold CacheManager.getLatencyMap, CacheManager.getFastestRpc,
    CacheManager.getRawChainCache in Hprobes.
  rewrite loadCache_disabled in Hprobes by done. cbn [fst snd] in Hprobes.
  rewrite getChainCache_disabled in Hprobes. cbn [fst snd mbind option_bind] in Hprobes.
  rewrite updateChainCache_disabled in Hprobes.
  apply Hprobes; [|done..].
  unfold RpcSelector.cacheIsValid. by destruct (latencyMap <$> cache st !! id).
Qed.

(** C8. With [disableCache] set, [getChainCache] always misses and
    [updateChainCache] changes nothing, yet [getRankedRpcList] still probes
    (given URLs to test and no test in flight): two [send]s in a row on one
    chain make two runs of the prober, each on its own network exchange. *)
Theorem disabled_cache_probes_every_send (id : Z) (method : string) (params : list Json)
    (st : State) :
  let urls := ChainlistDataSource.getRpcUrls opts id in
  ongoingLatencyTests st !! id = None →
  urls ≠ [] →
  (∀ id' st', CacheManager.getChainCache opts env id' st' = (None, st')) ∧
  (∀ id' m f st', CacheManager.updateChainCache opts env id' m f st' = st') ∧
  (getRankedRpcList id st).1
    = RpcSelector._rankResults
        (Some (testRpcUrls (probeNetwork env (length (probeLog st))) urls)) ∧
  probeLog (sendsL id method params 1 st) = (probeLog st ++ [urls])%list ∧
  (getRankedRpcList id (sendsL id method params 1 st)).1
    = RpcSelector._rankResults
        (Some (testRpcUrls (probeNetwork env (S (length (probeLog st)))) urls)) ∧
  probeLog (sendsL id method params 2 st) = (probeLog st ++ [urls; urls])%list ∧
  cache (sendsL id method params 2 st) = cache st.
Proof.
  intros urls Hongoing Hurls.
  pose proof (send_selector_frame PERMIT2_BYTECODE_PREFIX ToString JSON_stringify opts env
                method params id st) as (Hp1 & Ho1 & Hc1).
  fold getRankedRpcList in Hp1, Ho1, Hc1.
  rewrite (getRankedRpcList_disabled id st Hongoing Hurls) in Hp1, Ho1, Hc1.
  cbn [snd log_probe probeLog ongoingLatencyTests cache] in Hp1, Ho1, Hc1.
  set (st1 := sendsL id method params 1 st).
  assert (ongoingLatencyTests st1 !! id = None) as Hongoing1.
  { subst st1. unfold sendsL. cbn [sends]. by rewrite Ho1. }
  assert (probeLog st1 = (probeLog st ++ [urls])%list) as Hlog1.
  { subst st1. unfold sendsL. cbn [sends]. by rewrite Hp1. }
  pose proof (send_selector_frame PERMIT2_BYTECODE_PREFIX ToString JSON_stringify opts env
                method params id st1) as (Hp2 & _ & Hc2).
  fold getRankedRpcList in Hp2, Hc2.
  rewrite (getRankedRpcList_disabled id st1 Hongoing1 Hurls) in Hp2, Hc2.
  cbn [snd log_probe probeLog cache] in Hp2, Hc2.
  split_and!.
  - apply getChainCache_disabled.
  - apply updateChainCache_disabled.
  - by rewrite (getRankedRpcList_disabled id st Hongoing Hurls).
  - done.
  - rewrite (getRankedRpcList_disabled id st1 Hongoing1 Hurls). cbn [fst].
    rewrite Hlog1, length_app. simpl. do 4 f_equal. lia.
  - change (sendsL id method params 2 st)
      with (Permit2RpcManager.send PERMIT2_BYTECODE_PREFIX ToString JSON_stringify opts env
              id method params st1).2.
    rewrite Hp2, Hlog1. by rewrite <- app_assoc.
  - change (sendsL id method params 2 st)
      with (Permit2RpcManager.send PERMIT2_BYTECODE_PREFIX ToString JSON_stringify opts env
              id method params st1).2.
    rewrite Hc2. subst st1. unfold sendsL. cbn [sends]. by rewrite Hc1.
Qed.
End Disabled.

(** ** A chain whose URLs all fail the probe *)

Lemma saveCache_cache opts st : cache (CacheManager.saveCache opts st) = cache st.
Proof. unfold CacheManager.saveCache. by repeat case_match. Qed.

Lemma saveCache_cacheLoaded opts st :
  cacheLoaded (CacheManager.saveCache opts st) = cacheLoaded st.
Proof. unfold CacheManager.saveCache. by repeat case_match. Qed.

Lemma rank_all_hard_fail (tested : LatencyMap) :
  (∀ r, r ∈ Object_values tested → status r ∈ HARD_FAIL_STATUSES) →
  RpcSelector._rankResults (Some tested) = [] ∧
  RpcSelector._findFastestInMap (Some tested) = None.
Proof.
  intros Hall.
  assert (RpcSelector.validResults tested = []) as Hnone.
  { unfold RpcSelector.validResults.
    induction (Object_values tested) as [|r l IH]; [done|].
    rewrite filter_cons, decide_False.
    - apply IH. intros r' Hr'. apply Hall. by right.
    - specialize (Hall r ltac:(left)). intros Hacc.
      apply acceptable_cases in Hacc. unfold HARD_FAIL_STATUSES in Hall.
      rewrite !elem_of_cons, elem_of_nil in Hall.
      destruct Hacc as [Hs|[Hs|Hs]]; rewrite Hs in Hall;
        decompose [or] Hall; (discriminate || contradiction). }
  split.
  - unfold RpcSelector._rankResults, RpcSelector.rankedResults. by rewrite Hnone.
  - unfold RpcSelector._findFastestInMap.
    by rewrite findFastest_leftmost_least, Hnone.
Qed.

(** An entry without a fastest URL never counts as a valid cache. *)
Lemma getFastestRpc_no_fastest opts env id st lm :
  (∀ c, cache (CacheManager.loadCache opts st) !! id = Some c → fastestRpc c = None) →
  RpcSelector.cacheIsValid lm (CacheManager.getFastestRpc opts env id st).1 = false.
Proof.
  intros Hnone.
  assert ((CacheManager.getFastestRpc opts env id st).1 = None) as ->.
  { unfold CacheManager.getFastestRpc, CacheManager.getChainCache,
      CacheManager.getRawChainCache.
    destruct (disabled opts); [done|].
    destruct (cache (CacheManager.loadCache opts st) !! id) as [c|] eqn:Hc; [|done].
    cbn [read_clock]. destruct (bool_decide _); [|done].
    cbn [fst mbind option_bind]. by apply Hnone. }
  unfold RpcSelector.cacheIsValid. by destruct lm.
Qed.

Section HardFail.
Variable PERMIT2_BYTECODE_PREFIX : string.
Variables ToString JSON_stringify : option Json → string.
Variable opts : Options.
Variable env : Environment.

Let testRpcUrls := LatencyTester.testRpcUrls PERMIT2_BYTECODE_PREFIX ToString JSON_stringify.
Let getRankedRpcList :=
  RpcSelector.getRankedRpcList PERMIT2_BYTECODE_PREFIX ToString JSON_stringify opts env.

(** C1, as the code has it. When a chain is probed and every URL comes back
    with a hard-fail status, [getRankedRpcList] returns the empty list and
    the cache entry is written with the probe map and no fastest URL. That
    entry is not a valid cache (the validity test asks for a fastest URL),
    so the next [getRankedRpcList] for the chain, within the TTL or not,
    runs the prober again. *)
Theorem all_hard_fail_cached_and_probed_again (id : Z) (st : State) :
  let urls := ChainlistDataSource.getRpcUrls opts id in
  let tested := testRpcUrls (probeNetwork env (length (probeLog st))) urls in
  let lm := CacheManager.getLatencyMap opts id st in
  let st' := (getRankedRpcList id st).2 in
  disabled opts = false →
  ongoingLatencyTests st !! id = None →
  urls ≠ [] →
  RpcSelector.cacheIsValid lm.1 (CacheManager.getFastestRpc opts env id lm.2).1 = false →
  (∀ r, r ∈ Object_values tested → status r ∈ HARD_FAIL_STATUSES) →
  (getRankedRpcList id st).1 = [] ∧
  probeLog st' = (probeLog st ++ [urls])%list ∧
  (∃ t, cache st' !! id
        = Some {| fastestRpc := None; latencyMap := tested; lastTested := t |}) ∧
  probeLog (getRankedRpcList id st').2 = (probeLog st ++ [urls; urls])%list.
Proof.
  intros urls tested lm st' Hd Hongoing Hurls Hinvalid Hfail.
  destruct (rank_all_hard_fail tested Hfail) as [Hrank Hfastest].
  pose proof (getRankedRpcList_probes PERMIT2_BYTECODE_PREFIX ToString JSON_stringify env
                opts id st Hinvalid Hongoing Hurls) as Hfirst.
  fold getRankedRpcList lm urls testRpcUrls tested in Hfirst.
  rewrite Hrank, Hfastest in Hfirst. cbn [fmap option_fmap option_map] in Hfirst.
  set (st2 := (CacheManager.getFastestRpc opts env id lm.2).2) in *.
  assert (cache_only st st2) as (_ & _ & Hp2 & Ho2).
  { etransitivity; [apply (getLatencyMap_cache_only opts id st)|].
    apply getFastestRpc_cache_only. }
  assert (st' = CacheManager.updateChainCache opts env id tested None (log_probe urls st2))
    as Hst' by (subst st'; by rewrite Hfirst).
  pose proof (updateChainCache_cache_only opts env id tested None (log_probe urls st2))
    as (_ & _ & Hp3 & Ho3).
  rewrite <- Hst' in Hp3, Ho3. cbn [log_probe probeLog ongoingLatencyTests] in Hp3, Ho3.
  assert (probeLog st' = (probeLog st ++ [urls])%list) as Hlog' by (by rewrite Hp3, Hp2).
  assert (cacheLoaded st' = true ∧
          ∃ t, cache st' !! id
               = Some {| fastestRpc := None; latencyMap := tested; lastTested := t |})
    as [Hloaded' Hentry].
  { rewrite Hst'. unfold CacheManager.updateChainCache. rewrite Hd. cbn [read_clock].
    rewrite saveCache_cacheLoaded, saveCache_cache. cbn [set_cache cacheLoaded cache].
    split; [by apply loadCache_loaded|]. eexists. apply lookup_insert_eq. }
  split_and!; [by rewrite Hfirst|done|done|].
  unfold getRankedRpcList at 1.
  rewrite (getRankedRpcList_probes PERMIT2_BYTECODE_PREFIX ToString JSON_stringify env
             opts id st').
  - cbn [snd].
    match goal with
    | |- context [CacheManager.updateChainCache opts env id ?m ?f ?st3] =>
        pose proof (updateChainCache_cache_only opts env id m f st3) as (_ & _ & -> & _)
    end.
    cbn [log_probe probeLog].
    match goal with
    | |- context [CacheManager.getFastestRpc opts env id ?st1] =>
        pose proof (getFastestRpc_cache_only opts env id st1) as (_ & _ & -> & _)
    end.
    pose proof (getLatencyMap_cache_only opts id st') as (_ & _ & -> & _).
    rewrite Hlog'. by rewrite <- app_assoc.
  - apply getFastestRpc_no_fastest. intros c.
    unfold CacheManager.getLatencyMap, CacheManager.getRawChainCache. cbn [snd].
    rewrite !(loadCache_when_loaded opts st') by done.
    destruct Hentry as [t ->]. by intros [= <-].
  - by rewrite Ho3, Ho2.
  - done.
Qed.
End HardFail.

Lemma all_hard_fail_cached_and_probed_again_witness :
  let getRankedRpcList :=
    RpcSelector.getRankedRpcList samplePrefix sampleToString sampleToString
      sampleOptions deadEnv in
  let st' := (getRankedRpcList 100%Z initialState).2 in
  (getRankedRpcList 100%Z initialState).1 = [] ∧
  probeLog st' = [sampleUrls] ∧
  probeLog (getRankedRpcList 100%Z st').2 = [sampleUrls; sampleUrls].
Proof.
  intros getRankedRpcList st'.
  assert (∀ r, r ∈ Object_values
                     (LatencyTester.testRpcUrls samplePrefix sampleToString sampleToString
                        (probeNetwork deadEnv (length (probeLog initialState)))
                        (ChainlistDataSource.getRpcUrls sampleOptions 100)) →
               status r ∈ HARD_FAIL_STATUSES) as Hfail.
  { assert (Object_values
              (LatencyTester.testRpcUrls samplePrefix sampleToString sampleToString
                 (probeNetwork deadEnv (length (probeLog initialState)))
                 (ChainlistDataSource.getRpcUrls sampleOptions 100))
            = [timedOut "https://A"; timedOut "https://B"; timedOut "https://C"]) as ->
      by (vm_compute; reflexivity).
    apply Forall_forall. repeat constructor. }
  destruct (all_hard_fail_cached_and_probed_again samplePrefix sampleToString sampleToString
              sampleOptions deadEnv 100 initialState
              eq_refl eq_refl ltac:(discriminate) eq_refl Hfail)
    as (Hempty & Hlog & _ & Hagain).
  split; [exact Hempty|]. split; [exact Hlog|exact Hagain].
Defined.

(** C1, as stated, fails. Three URLs all time out: the ranking is empty and
    the entry is written without a fastest URL; a second call, 2 ms after
    the entry was written and so well within the TTL of one hour, does not
    reuse it: the prober runs a second time. *)
Lemma all_hard_fail_entry_not_reused :
  let getRankedRpcList :=
    RpcSelector.getRankedRpcList samplePrefix sampleToString sampleToString
      sampleOptions deadEnv in
  let first := getRankedRpcList 100%Z initialState in
  let second := getRankedRpcList 100%Z first.2 in
  status <$> Object_values
    (LatencyTester.testRpcUrls samplePrefix sampleToString sampleToString
       (probeNetwork deadEnv 0) sampleUrls) = [timeout; timeout; timeout] ∧
  first.1 = [] ∧
  fastestRpc <$> cache first.2 !! 100%Z = Some None ∧
  lastTested <$> cache first.2 !! 100%Z = Some 5000%Z ∧
  Date_now deadEnv (clockReads first.2) = 5001%Z ∧
  probeLog first.2 = [sampleUrls] ∧
  second.1 = [] ∧
  probeLog second.2 = [sampleUrls; sampleUrls] ∧
  length (probeLog second.2) ≠ length (probeLog first.2).
Proof. vm_compute. split_and!; (reflexivity || discriminate). Qed.

Lemma disabled_cache_probes_every_send_witness :
  let sendsL := sends samplePrefix sampleToString sampleToString disabledOptions healthyEnv
                  100 "eth_chainId" [] in
  disabled disabledOptions = true ∧
  probeLog (sendsL 1 initialState) = [sampleUrls] ∧
  probeLog (sendsL 2 initialState) = [sampleUrls; sampleUrls] ∧
  cache (sendsL 2 initialState) = ∅.
Proof.
  intros sendsL.
  destruct (disabled_cache_probes_every_send samplePrefix sampleToString sampleToString
              disabledOptions healthyEnv eq_refl 100 "eth_chainId" [] initialState
              eq_refl ltac:(discriminate))
    as (_ & _ & _ & Hone & _ & Htwo & Hcache).
  split; [reflexivity|]. split; [exact Hone|]. split; [exact Htwo|exact Hcache].
Defined.

(** * More of the code *)

(** ** The cache manager: writing, reading, expiry, persistence *)

Section CacheFacts.
Variable opts : Options.
Variable env : Environment.
Hypothesis enabled : disabled opts = false.

Lemma updateChainCache_cache id m f st :
  cache (CacheManager.updateChainCache opts env id m f st)
  = <[id := {| fastestRpc := f; latencyMap := m;
               lastTested := Date_now env (clockReads st) |}]>
      (cache (CacheManager.loadCache opts st)).
Proof.
  unfold CacheManager.updateChainCache. rewrite enabled. cbn [read_clock].
  rewrite saveCache_cache. cbn [set_cache cache]. by rewrite loadCache_clockReads.
Qed.

Lemma updateChainCache_loaded id m f st :
  cacheLoaded (CacheManager.updateChainCache opts env id m f st) = true.
Proof.
  unfold CacheManager.updateChainCache. rewrite enabled. cbn [read_clock].
  rewrite saveCache_cacheLoaded. cbn [set_cache cacheLoaded]. by apply loadCache_loaded.
Qed.

Lemma updateChainCache_clockReads id m f st :
  clockReads (CacheManager.updateChainCache opts env id m f st) = S (clockReads st).
Proof.
  unfold CacheManager.updateChainCache. rewrite enabled. cbn [read_clock].
  unfold CacheManager.saveCache. repeat case_match; cbn; by rewrite loadCache_clockReads.
Qed.

(** What the getters return on a loaded cache, by the age of the entry. *)
Lemma getters_on_entry id st c :
  cache (CacheManager.loadCache opts st) !! id = Some c →
  (CacheManager.getLatencyMap opts id st).1 = Some (latencyMap c) ∧
  (CacheManager.getChainCache opts env id st).1
    = (if bool_decide (Date_now env (clockReads st) - lastTested c < cacheTtlMs opts)%Z
       then Some c else None) ∧
  (CacheManager.getFastestRpc opts env id st).1
    = (if bool_decide (Date_now env (clockReads st) - lastTested c < cacheTtlMs opts)%Z
       then fastestRpc c else None).
Proof.
  intros Hc.
  unfold CacheManager.getLatencyMap, CacheManager.getFastestRpc,
    CacheManager.getChainCache, CacheManager.getRawChainCache.
  rewrite enabled, Hc. cbn [read_clock]. rewrite loadCache_clockReads.
  by destruct (bool_decide _).
Qed.

(** X1. Round trip: right after [updateChainCache] (cache enabled) the raw
    entry of the chain is the one written, stamped with the clock reading of
    the write; while a clock reading is within the TTL of that stamp,
    [getChainCache] returns that entry, [getFastestRpc] its fastest URL and
    [getLatencyMap] its map. *)
Theorem updateChainCache_round_trip (id : Z) (m : LatencyMap) (f : option string)
    (st : State) :
  let st' := CacheManager.updateChainCache opts env id m f st in
  let written := {| fastestRpc := f; latencyMap := m;
                    lastTested := Date_now env (clockReads st) |} in
  (Date_now env (clockReads st') - Date_now env (clockReads st) < cacheTtlMs opts)%Z →
  (CacheManager.getRawChainCache opts id st').1 = Some written ∧
  (CacheManager.getChainCache opts env id st').1 = Some written ∧
  (CacheManager.getFastestRpc opts env id st').1 = f ∧
  (CacheManager.getLatencyMap opts id st').1 = Some m.
Proof.
  intros st' written Hfresh.
  assert (cache (CacheManager.loadCache opts st') !! id = Some written) as Hc.
  { rewrite loadCache_when_loaded by apply updateChainCache_loaded.
    subst st'. rewrite updateChainCache_cache. apply lookup_insert_eq. }
  destruct (getters_on_entry id st' written Hc) as (Hmap & Hget & Hfast).
  rewrite bool_decide_eq_true_2 in Hget, Hfast by done.
  split_and!; done.
Qed.

(** X2. Expiry: on an entry whose age has reached the TTL,
    [getChainCache] and [getFastestRpc] return null, and [getLatencyMap],
    which does not look at the age, still returns the stale map. *)
Theorem expired_entry_reads (id : Z) (st : State) (c : ChainCache) :
  cache (CacheManager.loadCache opts st) !! id = Some c →
  (cacheTtlMs opts ≤ Date_now env (clockReads st) - lastTested c)%Z →
  (CacheManager.getChainCache opts env id st).1 = None ∧
  (CacheManager.getFastestRpc opts env id st).1 = None ∧
  (CacheManager.getLatencyMap opts id st).1 = Some (latencyMap c).
Proof.
  intros Hc Hold.
  destruct (getters_on_entry id st c Hc) as (Hmap & Hget & Hfast).
  rewrite bool_decide_eq_false_2 in Hget, Hfast by lia.
  split_and!; done.
Qed.

Lemma updateChainCache_kv id m f st :
  kv st ≠ KvUnavailable →
  kv (CacheManager.updateChainCache opts env id m f st)
  = KvHolds (Some (cache (CacheManager.updateChainCache opts env id m f st))).
Proof.
  intros Hkv. unfold CacheManager.updateChainCache. rewrite enabled. cbn [read_clock].
  unfold CacheManager.saveCache. rewrite enabled. cbn [set_cache cacheLoaded orb kv].
  rewrite loadCache_loaded by done. cbn [negb].
  assert (kv (CacheManager.loadCache opts st) = kv st) as ->
    by (unfold CacheManager.loadCache; by repeat case_match).
  by destruct (kv st).
Qed.

(** X3. Persistence: when the KV store works, [updateChainCache] leaves in
    it the whole cache of the process, and a process started afterwards over
    the same store loads exactly that cache, the entry just written
    included. *)
Theorem updateChainCache_persists (id : Z) (m : LatencyMap) (f : option string)
    (st : State) :
  let st' := CacheManager.updateChainCache opts env id m f st in
  kv st ≠ KvUnavailable →
  kv st' = KvHolds (Some (cache st')) ∧
  cache (CacheManager.loadCache opts (restart st')) = cache st' ∧
  (CacheManager.getLatencyMap opts id (restart st')).1 = Some m.
Proof.
  intros st' Hkv.
  assert (kv st' = KvHolds (Some (cache st'))) as Hkv' by (by apply updateChainCache_kv).
  assert (cache (CacheManager.loadCache opts (restart st')) = cache st') as Hload.
  { unfold CacheManager.loadCache. rewrite enabled. cbn [restart cacheLoaded orb kv].
    by rewrite Hkv'. }
  split_and!; [done|done|].
  unfold CacheManager.getLatencyMap, CacheManager.getRawChainCache. cbn [fst].
  rewrite Hload. subst st'. by rewrite updateChainCache_cache, lookup_insert_eq.
Qed.

(** X4. A KV store that throws: loading gives the empty cache (every read
    is a miss), a write still takes effect in the memory of the process,
    the store is left as it was, and a process started afterwards finds
    nothing. *)
Theorem kv_unavailable_swallowed (id : Z) (m : LatencyMap) (f : option string)
    (st : State) :
  let st' := CacheManager.updateChainCache opts env id m f st in
  kv st = KvUnavailable →
  cacheLoaded st = false →
  (∀ id', (CacheManager.getRawChainCache opts id' st).1 = None) ∧
  (CacheManager.getLatencyMap opts id st').1 = Some m ∧
  kv st' = KvUnavailable ∧
  (∀ id', (CacheManager.getRawChainCache opts id' (restart st')).1 = None).
Proof.
  intros st' Hkv Hnew.
  assert (CacheManager.loadCache opts st = set_cache ∅ true st) as Hload.
  { unfold CacheManager.loadCache. by rewrite enabled, Hnew, Hkv. }
  assert (kv st' = KvUnavailable) as Hkv'.
  { subst st'. unfold CacheManager.updateChainCache. rewrite enabled, Hload.
    cbn [read_clock]. unfold CacheManager.saveCache. rewrite enabled.
    cbn [set_cache cacheLoaded orb kv negb]. by rewrite Hkv. }
  split_and!.
  - intros id'. unfold CacheManager.getRawChainCache. cbn [fst]. by rewrite Hload.
  - unfold CacheManager.getLatencyMap, CacheManager.getRawChainCache. cbn [fst].
    rewrite loadCache_when_loaded by apply updateChainCache_loaded.
    subst st'. by rewrite updateChainCache_cache, lookup_insert_eq.
  - done.
  - intros id'. unfold CacheManager.getRawChainCache, CacheManager.loadCache. cbn [fst].
    rewrite enabled. cbn [restart cacheLoaded orb kv]. by rewrite Hkv'.
Qed.

(** X5. One chain at a time: [updateChainCache] for a chain leaves the entry
    of every other chain as it was, in the memory of the process and so in
    the root it writes to the KV store. *)
Theorem updateChainCache_other_chains (id id' : Z) (m : LatencyMap) (f : option string)
    (st : State) :
  let st' := CacheManager.updateChainCache opts env id m f st in
  id' ≠ id →
  (CacheManager.getRawChainCache opts id' st').1
    = (CacheManager.getRawChainCache opts id' st).1 ∧
  (kv st ≠ KvUnavailable →
   ∃ root, kv st' = KvHolds (Some root) ∧
           root !! id' = (CacheManager.getRawChainCache opts id' st).1).
Proof.
  intros st' Hne.
  assert (cache st' !! id' = cache (CacheManager.loadCache opts st) !! id') as Hother.
  { subst st'. by rewrite updateChainCache_cache, lookup_insert_ne. }
  split.
  - unfold CacheManager.getRawChainCache. cbn [fst].
    by rewrite (loadCache_when_loaded opts st') by apply updateChainCache_loaded.
  - intros Hkv. exists (cache st'). split; [|done]. by apply updateChainCache_kv.
Qed.
End CacheFacts.

Lemma updateChainCache_round_trip_witness :
  let st' := CacheManager.updateChainCache sampleOptions healthyEnv 100 sampleMap
               (Some "https://A") initialState in
  disabled sampleOptions = false ∧
  (CacheManager.getFastestRpc sampleOptions healthyEnv 100 st').1 = Some "https://A" ∧
  (CacheManager.getLatencyMap sampleOptions 100 st').1 = Some sampleMap.
Proof.
  intros st'.
  destruct (updateChainCache_round_trip sampleOptions healthyEnv eq_refl 100 sampleMap
              (Some "https://A") initialState) as (_ & _ & Hfast & Hmap).
  - vm_compute. reflexivity.
  - split; [reflexivity|]. split; [exact Hfast|exact Hmap].
Defined.

Lemma expired_entry_reads_witness :
  let st := set_kv (KvHolds (Some {[ 100%Z := staleEntry ]})) initialState in
  (CacheManager.getFastestRpc sampleOptions lateEnv 100 st).1 = None ∧
  (CacheManager.getLatencyMap sampleOptions 100 st).1 = Some sampleMap.
Proof.
  intros st.
  destruct (expired_entry_reads sampleOptions lateEnv eq_refl 100 st staleEntry)
    as (_ & Hfast & Hmap).
  - vm_compute. reflexivity.
  - vm_compute. discriminate.
  - split; [exact Hfast|exact Hmap].
Defined.

Lemma updateChainCache_persists_witness :
  let st' := CacheManager.updateChainCache sampleOptions healthyEnv 100 sampleMap
               (Some "https://A") initialState in
  kv initialState ≠ KvUnavailable ∧
  (CacheManager.getLatencyMap sampleOptions 100 (restart st')).1 = Some sampleMap.
Proof.
  intros st'.
  assert (kv initialState ≠ KvUnavailable) as Hkv by discriminate.
  destruct (updateChainCache_persists sampleOptions healthyEnv eq_refl 100 sampleMap
              (Some "https://A") initialState Hkv) as (_ & _ & Hmap).
  split; [exact Hkv|exact Hmap].
Defined.

Lemma kv_unavailable_swallowed_witness :
  let st := set_kv KvUnavailable initialState in
  let st' := CacheManager.updateChainCache sampleOptions healthyEnv 100 sampleMap
               (Some "https://A") st in
  (CacheManager.getLatencyMap sampleOptions 100 st').1 = Some sampleMap ∧
  (CacheManager.getRawChainCache sampleOptions 100 (restart st')).1 = None.
Proof.
  intros st st'.
  destruct (kv_unavailable_swallowed sampleOptions healthyEnv eq_refl 100 sampleMap
              (Some "https://A") st eq_refl eq_refl) as (_ & Hmap & _ & Hgone).
  split; [exact Hmap|apply Hgone].
Defined.

Lemma updateChainCache_other_chains_witness :
  let st := set_kv (KvHolds (Some {[ 1%Z := staleEntry ]})) initialState in
  let st' := CacheManager.updateChainCache sampleOptions healthyEnv 100 sampleMap
               (Some "https://A") st in
  (CacheManager.getRawChainCache sampleOptions 1 st').1 = Some staleEntry.
Proof.
  intros st st'. subst st'.
  destruct (updateChainCache_other_chains sampleOptions healthyEnv eq_refl 100 1 sampleMap
              (Some "https://A") st) as (-> & _); [discriminate|].
  vm_compute. reflexivity.
Defined.

(** ** The prober: what a probe map looks like *)

Lemma Object_keys_Record_set_new {V} (obj : JsRecord V) k v :
  k ∉ Object_keys obj → Record_set obj k v = (obj ++ [(k, v)])%list.
Proof.
  unfold Object_keys. induction obj as [|[k0 v0] obj IH]; simpl; intros Hk; [done|].
  apply not_elem_of_cons in Hk as [Hne Hk].
  rewrite decide_False by done. by rewrite IH.
Qed.

Lemma elem_of_Record_set {V} (obj : JsRecord V) k v k' v' :
  (k', v') ∈ Record_set obj k v → (k', v') = (k, v) ∨ (k', v') ∈ obj.
Proof.
  induction obj as [|[k0 v0] obj IH]; simpl.
  - rewrite list_elem_of_singleton. by left.
  - destruct (decide (k0 = k)) as [->|Hne]; rewrite !elem_of_cons; [tauto|].
    intros [?|Hin]; [tauto|]. destruct (IH Hin); tauto.
Qed.

Lemma Record_get_elem_of {V} (obj : JsRecord V) k v :
  Record_get obj k = Some v → (k, v) ∈ obj.
Proof.
  induction obj as [|[k0 v0] obj IH]; simpl; [done|].
  destruct (decide (k0 = k)) as [->|Hne]; [intros [= ->]; left|].
  intros Hget. right. by apply IH.
Qed.

Lemma imap_keys {V} (g : nat → string → V) (l : list string) :
  Object_keys (imap (λ i u, (u, g i u)) l) = l.
Proof.
  unfold Object_keys. revert g. induction l as [|u l IH]; intros g; [done|].
  rewrite imap_cons, fmap_cons. simpl. f_equal. apply (IH (λ i, g (S i))).
Qed.

Lemma makeRpcCall_returns o body :
  LatencyTester._makeRpcCall o = inr body ↔ answers o body.
Proof.
  unfold LatencyTester._makeRpcCall, answers. split.
  - destruct o as [e|r]; [done|]. destruct (resp_ok r) eqn:Hok; [|done].
    simpl. intros Hjson. by exists r.
  - intros (r & -> & Hok & Hjson). by rewrite Hok.
Qed.

Section ProbeFacts.
Variable PERMIT2_BYTECODE_PREFIX : string.
Variables ToString JSON_stringify : option Json → string.

Let testSingleRpc := LatencyTester.testSingleRpc PERMIT2_BYTECODE_PREFIX ToString JSON_stringify.
Let settledResult := LatencyTester.settledResult PERMIT2_BYTECODE_PREFIX ToString JSON_stringify.
Let settle_from := LatencyTester.settle_from PERMIT2_BYTECODE_PREFIX ToString JSON_stringify.
Let testRpcUrls := LatencyTester.testRpcUrls PERMIT2_BYTECODE_PREFIX ToString JSON_stringify.

Lemma settledResult_wellformed url0 run :
  url (settledResult url0 run) = url0 ∧
  (error (settledResult url0 run) = None ↔ status (settledResult url0 run) = ok).
Proof.
  unfold settledResult, LatencyTester.settledResult, LatencyTester.testSingleRpc.
  repeat case_match; simpl; split; done.
Qed.

Lemma testRpcUrls_entry_wellformed network urls k r :
  (k, r) ∈ testRpcUrls network urls → url r = k ∧ (error r = None ↔ status r = ok).
Proof.
  assert (∀ index resultMap,
            (∀ k' r', (k', r') ∈ resultMap →
                      url r' = k' ∧ (error r' = None ↔ status r' = ok)) →
            ∀ k' r', (k', r') ∈ settle_from network index urls resultMap →
                     url r' = k' ∧ (error r' = None ↔ status r' = ok)) as Hinv.
  { induction urls as [|url0 urls' IH]; intros index resultMap Hmap k' r' Hin; [by apply Hmap|].
    unfold settle_from in *. simpl in Hin. eapply IH; [|exact Hin].
    intros k'' r'' Hin'. unfold LatencyTester.settle in Hin'.
    apply elem_of_Record_set in Hin' as [[= -> ->]|Hin']; [|by apply Hmap].
    apply settledResult_wellformed. }
  unfold testRpcUrls, LatencyTester.testRpcUrls.
  destruct urls as [|u urls']; [by intros ?%elem_of_nil|].
  apply (Hinv 0 []). by intros ? ? ?%elem_of_nil.
Qed.

Lemma testRpcUrls_NoDup network urls : NoDup (Object_keys (testRpcUrls network urls)).
Proof.
  unfold testRpcUrls, LatencyTester.testRpcUrls. destruct urls as [|u urls']; [constructor|].
  apply settle_from_NoDup. constructor.
Qed.

Lemma testRpcUrls_keys network urls u :
  u ∈ Object_keys (testRpcUrls network urls) ↔ u ∈ urls.
Proof.
  unfold testRpcUrls, LatencyTester.testRpcUrls. destruct urls as [|u' urls']; [done|].
  rewrite settle_from_keys. unfold Object_keys. simpl. rewrite elem_of_nil. tauto.
Qed.

(** X6. Every entry of the map [testRpcUrls] returns is filed under the URL
    it reports ([result.url] is its key), and carries an error text exactly
    when its status is not ok. *)
Theorem testRpcUrls_entries_wellformed (network : nat → string → ProbeRun)
    (urls : list string) (k : string) (r : LatencyTestResult) :
  ((k, r) ∈ testRpcUrls network urls → url r = k ∧ (error r = None ↔ status r = ok)) ∧
  (Record_get (testRpcUrls network urls) k = Some r →
     url r = k ∧ (error r = None ↔ status r = ok)).
Proof.
  assert ((k, r) ∈ testRpcUrls network urls →
          url r = k ∧ (error r = None ↔ status r = ok)) as Hentry
    by apply testRpcUrls_entry_wellformed.
  split; [done|]. intros Hget. by apply Hentry, Record_get_elem_of.
Qed.

(** X7. For a list of distinct URLs none of which is written in digits
    only (so none is an array index, the keys an object enumerates first),
    [testRpcUrls] returns the entries in the order of the list: the i-th
    property of the map is the i-th URL, with what its probe settled as. So
    the map iterates in whitelist order, which is the order ties in the
    ranking keep. *)
Theorem testRpcUrls_in_input_order (network : nat → string → ProbeRun)
    (urls : list string) :
  NoDup urls →
  (∀ u, u ∈ urls → digitsOnly u = false) →
  testRpcUrls network urls = imap (λ i u, (u, settledResult u (network i u))) urls ∧
  Object_keys (testRpcUrls network urls) = urls.
Proof.
  intros Hnd _.
  assert (∀ index resultMap,
            (∀ u, u ∈ urls → u ∉ Object_keys resultMap) →
            settle_from network index urls resultMap
            = (resultMap
               ++ imap (λ i u, (u, settledResult u (network (index + i) u))) urls)%list)
    as Hgen.
  { induction Hnd as [|url0 urls' Hnew Hnd IH]; intros index resultMap Hfresh.
    - simpl. by rewrite app_nil_r.
    - unfold settle_from in *. simpl. rewrite IH.
      + unfold LatencyTester.settle.
        rewrite Object_keys_Record_set_new by (apply Hfresh; left).
        rewrite <- app_assoc. simpl. rewrite Nat.add_0_r. do 2 f_equal.
        apply imap_ext. intros i u _. simpl. do 3 f_equal. lia.
      + intros u Hu. unfold LatencyTester.settle.
        rewrite elem_of_keys_Record_set. intros [->|Hin]; [done|].
        by apply (Hfresh u); [right|]. }
  assert (testRpcUrls network urls
          = imap (λ i u, (u, settledResult u (network i u))) urls) as Hmap.
  { unfold testRpcUrls, LatencyTester.testRpcUrls. destruct urls as [|u urls']; [done|].
    fold settle_from. rewrite Hgen; [done|]. intros ? _ ?%elem_of_nil. done. }
  split; [done|]. rewrite Hmap. apply imap_keys.
Qed.

(** X8. A probe is ok exactly when both calls came back 2xx with JSON,
    neither body has a truthy [error], [eth_syncing] answered [false], and
    [eth_getCode] answered a string that starts with the Permit2 prefix. *)
Theorem testSingleRpc_ok_iff (url0 : string) (x : ProbeExchange) :
  status (testSingleRpc url0 x) = ok ↔
  ∃ getCodeBody syncingBody code,
    answers (getCodeFetch x) getCodeBody ∧
    answers (syncingFetch x) syncingBody ∧
    js_truthy (js_get getCodeBody "error") = false ∧
    js_truthy (js_get syncingBody "error") = false ∧
    js_get syncingBody "result" = Some (JBool false) ∧
    js_get getCodeBody "result" = Some (JString code) ∧
    String.prefix PERMIT2_BYTECODE_PREFIX code = true.
Proof.
  unfold testSingleRpc, LatencyTester.testSingleRpc. split.
  - destruct (LatencyTester._makeRpcCall (getCodeFetch x)) as [e1|getCodeBody] eqn:H1,
             (LatencyTester._makeRpcCall (syncingFetch x)) as [e2|syncingBody] eqn:H2;
      simpl; try (by repeat case_match).
    apply makeRpcCall_returns in H1, H2.
    destruct (js_truthy (js_get getCodeBody "error")) eqn:He1; [done|].
    destruct (js_truthy (js_get syncingBody "error")) eqn:He2; [done|].
    destruct (js_get syncingBody "result") as [[|[|]| | | |]|] eqn:Hs; try done.
    destruct (js_get getCodeBody "result") as [[| | |code| |]|] eqn:Hc; try done.
    destruct (String.prefix PERMIT2_BYTECODE_PREFIX code) eqn:Hp; [|done].
    intros _. by exists getCodeBody, syncingBody, code.
  - intros (getCodeBody & syncingBody & code & H1 & H2 & He1 & He2 & Hs & Hc & Hp).
    apply makeRpcCall_returns in H1, H2. rewrite H1, H2. simpl.
    by rewrite He1, He2, Hs, Hc, Hp.
Qed.

(** X9. When [eth_getCode] comes back non-2xx and [eth_syncing] is aborted
    by the timer, the probe reports whichever settled first: timeout if the
    abort came first, http_error if the HTTP answer did; either way the
    latency is Infinity. *)
Theorem testSingleRpc_first_rejection_decides (url0 : string) (x : ProbeExchange)
    (r : Response) (e : JsError) :
  getCodeFetch x = FetchResponds r → resp_ok r = false →
  syncingFetch x = FetchRejects e → name e = "AbortError" →
  status (testSingleRpc url0 x) = (if syncingSettlesFirst x then timeout else http_error) ∧
  latency (testSingleRpc url0 x) = Infinity ∧
  error (testSingleRpc url0 x)
  = Some (if syncingSettlesFirst x then message e else http_error_message r).
Proof.
  intros Hcode Hok Hsync Hname.
  unfold testSingleRpc, LatencyTester.testSingleRpc, LatencyTester._makeRpcCall.
  rewrite Hcode, Hsync, Hok. cbn [negb Promise_all].
  destruct (syncingSettlesFirst x); cbn [name message new_Error].
  - rewrite Hname. by cbn.
  - by cbn.
Qed.
End ProbeFacts.

Lemma testSingleRpc_first_rejection_decides_witness :
  let r := {| resp_ok := false; resp_status := 502; resp_statusText := "Bad Gateway";
              resp_json := inr JNull |} in
  let e := {| name := "AbortError"; message := "The operation was aborted." |} in
  let x := {| startTime := 1000; getCodeFetch := FetchResponds r;
              syncingFetch := FetchRejects e; syncingSettlesFirst := false;
              endTime := 6000 |} in
  resp_ok r = false ∧
  status (LatencyTester.testSingleRpc samplePrefix sampleToString sampleToString
            "https://A" x) = http_error.
Proof.
  intros r e x.
  destruct (testSingleRpc_first_rejection_decides samplePrefix sampleToString sampleToString
              "https://A" x r e eq_refl eq_refl eq_refl eq_refl) as (Hstatus & _).
  split; [reflexivity|exact Hstatus].
Defined.

Lemma testRpcUrls_in_input_order_witness :
  NoDup sampleUrls ∧
  existsb digitsOnly sampleUrls = false ∧
  Object_keys (LatencyTester.testRpcUrls samplePrefix sampleToString sampleToString
                 (probeNetwork healthyEnv 0) sampleUrls) = sampleUrls.
Proof.
  assert (NoDup sampleUrls) as Hnd.
  { unfold sampleUrls. repeat (apply NoDup_cons; split; [|]);
      [rewrite ?elem_of_cons, ?elem_of_nil; intros Hin; decompose [or] Hin;
       (discriminate || contradiction) ..|apply NoDup_nil_2]. }
  assert (∀ u, u ∈ sampleUrls → digitsOnly u = false) as Hkeys.
  { intros u Hu. apply list_elem_of_In in Hu. vm_compute in Hu.
    decompose [or] Hu; subst; (reflexivity || contradiction). }
  split; [exact Hnd|]. split; [reflexivity|].
  by destruct (testRpcUrls_in_input_order samplePrefix sampleToString sampleToString
                 (probeNetwork healthyEnv 0) sampleUrls Hnd Hkeys) as (_ & ->).
Defined.

(** X10. The position in "Bytecode mismatch at position n": the two strings
    agree on their first [n] characters and, where both go on, differ at
    the next; when the received code does not start with the expected
    prefix, [n] lies within the prefix. *)
Theorem commonPrefixLength_first_difference (expected received : string) :
  let n := LatencyTester.commonPrefixLength expected received in
  (n ≤ String.length expected)%nat ∧
  (n ≤ String.length received)%nat ∧
  (∀ i, (i < n)%nat → String.get i received = String.get i expected) ∧
  ((n < String.length expected)%nat → (n < String.length received)%nat →
   String.get n received ≠ String.get n expected) ∧
  (String.prefix expected received = false → (n < String.length expected)%nat).
Proof.
  revert received. induction expected as [|a expected IH]; intros received n; subst n.
  - destruct received; simpl; split_and!; (lia || done || (intros; lia)).
  - destruct received as [|b received];
      [simpl; split_and!; (lia || done || (intros; lia))|].
    cbn [LatencyTester.commonPrefixLength String.prefix String.length].
    destruct (Ascii.eqb_spec a b) as [->|Hab].
    + specialize (IH received). cbn zeta in IH.
      destruct IH as (Hle1 & Hle2 & Hsame & Hdiff & Hin).
      split_and!.
      * lia.
      * lia.
      * intros [|i] Hi; [done|]. simpl. apply Hsame. lia.
      * simpl. intros ? ?. apply Hdiff; lia.
      * destruct (Ascii.ascii_dec b b); [|done]. intros Hp. apply Hin in Hp. lia.
    + split_and!;
        [lia|lia|intros i Hi; lia|simpl; intros _ _ [= ?]; congruence|intros _; lia].
Qed.

(** ** The whitelist (chainlist-data-source.ts) *)

Lemma keepUrl_Some j u :
  ChainlistDataSource.keepUrl j = Some u ↔ j = JString u ∧ validUrl u.
Proof.
  unfold ChainlistDataSource.keepUrl, validUrl. split.
  - destruct j as [| | |u'| |]; try done.
    destruct (String.prefix "https://" u') eqn:Hp; [|done].
    destruct (ChainlistDataSource.String_includes "${" u') eqn:Hi; [done|].
    by intros [= ->].
  - intros (-> & Hp & Hi). by rewrite Hp, Hi.
Qed.

Section WhitelistFacts.
Variable parseInt : string → JsNumber.

Let loadEntries := ChainlistDataSource.loadEntries parseInt.
Let loadData := ChainlistDataSource.loadData parseInt.

Lemma loadEntries_Some entries cs :
  loadEntries entries = Some cs →
  Forall2 (λ entry c, ∃ urls, entry.2 = JArray urls ∧
             c = {| ChainlistDataSource.loadedChainId := parseInt entry.1;
                    ChainlistDataSource.loadedRpcUrls :=
                      omap ChainlistDataSource.keepUrl urls |})
          entries cs.
Proof.
  revert cs. induction entries as [|entry entries IH]; intros cs.
  - intros [= <-]. constructor.
  - unfold loadEntries in *. simpl. unfold ChainlistDataSource.loadEntry.
    destruct (entry.2) as [| | | |urls|] eqn:Hv; try done.
    destruct (ChainlistDataSource.loadEntries parseInt entries) as [cs'|]; [|done].
    intros [= <-]. constructor; [by exists urls|by apply IH].
Qed.

Lemma loadEntries_None entries entry :
  entry ∈ entries → (∀ urls, entry.2 ≠ JArray urls) → loadEntries entries = None.
Proof.
  intros Hin Hbad. induction entries as [|entry' entries IH]; [by apply elem_of_nil in Hin|].
  unfold loadEntries in *. simpl.
  apply elem_of_cons in Hin as [<-|Hin].
  - unfold ChainlistDataSource.loadEntry.
    destruct (entry.2) as [| | | |urls|] eqn:Hv; try done. by destruct (Hbad urls).
  - rewrite (IH Hin). by destruct (ChainlistDataSource.loadEntry parseInt entry').
Qed.

Lemma loadEntries_total entries :
  (∀ entry, entry ∈ entries → ∃ l, entry.2 = JArray l) →
  ∃ cs, loadEntries entries = Some cs.
Proof.
  induction entries as [|[k v] entries IH]; intros Harrays; [by eexists|].
  destruct (Harrays (k, v)) as [l Hl]; [left|]. simpl in Hl. subst v.
  destruct IH as [cs Hcs]; [intros; apply Harrays; by right|].
  unfold loadEntries in *. simpl. rewrite Hcs. by eexists.
Qed.

Lemma loadData_urls_valid jsonData c u :
  c ∈ loadData jsonData → u ∈ ChainlistDataSource.loadedRpcUrls c → validUrl u.
Proof.
  unfold loadData, ChainlistDataSource.loadData.
  destruct (ChainlistDataSource.loadEntries parseInt _) as [cs|] eqn:Hload;
    [|by intros ?%elem_of_nil].
  apply loadEntries_Some in Hload. intros Hc Hu.
  apply list_elem_of_lookup in Hc as [i Hi].
  destruct (Forall2_lookup_r _ _ _ _ _ Hload Hi) as (entry & _ & urls & _ & ->).
  simpl in Hu. apply list_elem_of_omap in Hu as (j & _ & Hkeep).
  by apply keepUrl_Some in Hkeep as [_ ?].
Qed.

Lemma getRpcUrls_integerChains opts whitelistData0 id :
  whitelistData opts = ChainlistDataSource.integerChains whitelistData0 →
  ChainlistDataSource.getRpcUrls opts id
  = ChainlistDataSource.getLoadedRpcUrls whitelistData0 id.
Proof.
  intros Hw. unfold ChainlistDataSource.getRpcUrls, ChainlistDataSource.getLoadedRpcUrls.
  rewrite Hw. unfold ChainlistDataSource.integerChains. clear Hw.
  induction whitelistData0 as [|c cs IH]; [done|].
  change (omap ?f (c :: cs)) with (match f c with Some y => y :: omap f cs | None => omap f cs end).
  cbn [List.find]. destruct c as [[z| | |] urls]; cbn; try exact IH.
  destruct (decide (z = id)) as [->|Hne].
  - by rewrite !bool_decide_eq_true_2.
  - rewrite !bool_decide_eq_false_2 by done. exact IH.
Qed.

Lemma getLoadedRpcUrls_elem whitelistData0 id u :
  u ∈ ChainlistDataSource.getLoadedRpcUrls whitelistData0 id →
  ∃ c, c ∈ whitelistData0 ∧ ChainlistDataSource.loadedChainId c = Num id ∧
       u ∈ ChainlistDataSource.loadedRpcUrls c.
Proof.
  unfold ChainlistDataSource.getLoadedRpcUrls.
  destruct (List.find _ whitelistData0) as [c|] eqn:Hfind; [|by intros ?%elem_of_nil].
  apply find_some in Hfind as [Hin Heq]. intros Hu. exists c.
  split; [by apply list_elem_of_In|]. split; [|done].
  destruct (ChainlistDataSource.loadedChainId c); try done.
  by apply bool_decide_eq_true in Heq as ->.
Qed.

(** X11. What [loadData] keeps: the URLs [getRpcUrls] serves for a chain
    are strings of the array under a key [parseInt] reads as that chain id,
    each starts with "https://" and none contains "${". *)
Theorem getRpcUrls_after_loadData (jsonData : Json) (id : Z) (u : string) :
  u ∈ ChainlistDataSource.getLoadedRpcUrls (loadData jsonData) id →
  validUrl u ∧
  ∃ rpcs key urls,
    js_get jsonData "rpcs" = Some rpcs ∧
    (key, JArray urls) ∈ ChainlistDataSource.Object_entries rpcs ∧
    parseInt key = Num id ∧
    JString u ∈ urls.
Proof.
  intros Hu. apply getLoadedRpcUrls_elem in Hu as (c & Hc & Hid & Hu).
  split; [by eapply loadData_urls_valid|].
  unfold loadData, ChainlistDataSource.loadData in Hc.
  destruct (ChainlistDataSource.loadEntries parseInt _) as [cs|] eqn:Hload;
    [|by apply elem_of_nil in Hc].
  apply loadEntries_Some in Hload.
  apply list_elem_of_lookup in Hc as [i Hi].
  destruct (Forall2_lookup_r _ _ _ _ _ Hload Hi) as ([key v] & Hentry & urls & Hv & ->).
  simpl in *. subst v.
  destruct (js_get jsonData "rpcs") as [rpcs|] eqn:Hrpcs; [|by destruct i].
  destruct (js_truthy (Some rpcs)); [|by destruct i].
  exists rpcs, key, urls. split_and!; [done| |done|].
  - by eapply list_elem_of_lookup_2.
  - apply list_elem_of_omap in Hu as (j & Hj & Hkeep).
    by apply keepUrl_Some in Hkeep as [-> _].
Qed.

(** X12. The converse: a string of the array of the first key that reads
    as the chain id is served when it starts with "https://" and contains
    no "${", provided every chain of the document lists an array. *)
Theorem loadData_keeps_valid (jsonData rpcs : Json) (id : Z) (key : string)
    (urls : list Json) (before after : list (string * Json)) (u : string) :
  js_get jsonData "rpcs" = Some rpcs →
  js_truthy (Some rpcs) = true →
  ChainlistDataSource.Object_entries rpcs = (before ++ (key, JArray urls) :: after)%list →
  (∀ entry, entry ∈ ChainlistDataSource.Object_entries rpcs → ∃ l, entry.2 = JArray l) →
  (∀ entry, entry ∈ before → parseInt entry.1 ≠ Num id) →
  parseInt key = Num id →
  ChainlistDataSource.getLoadedRpcUrls (loadData jsonData) id
  = omap ChainlistDataSource.keepUrl urls ∧
  (JString u ∈ urls → validUrl u →
   u ∈ ChainlistDataSource.getLoadedRpcUrls (loadData jsonData) id).
Proof.
  intros Hrpcs Htruthy Hentries Harrays Hbefore Hkey.
  assert (ChainlistDataSource.getLoadedRpcUrls (loadData jsonData) id
          = omap ChainlistDataSource.keepUrl urls) as Hserved.
  { unfold loadData, ChainlistDataSource.loadData. rewrite Hrpcs, Htruthy. simpl.
    rewrite Hentries. rewrite Hentries in Harrays. clear Hentries Hrpcs Htruthy.
    unfold ChainlistDataSource.getLoadedRpcUrls.
    induction before as [|[k v] before IH].
    - simpl.
      destruct (loadEntries_total after) as [cs Hcs]; [intros; apply Harrays; by right|].
      unfold loadEntries in Hcs. rewrite Hcs. simpl. rewrite Hkey. simpl.
      by rewrite bool_decide_eq_true_2.
    - destruct (Harrays (k, v)) as [l Hl]; [left|]. simpl in Hl. subst v.
      specialize (IH ltac:(intros; apply Harrays; by right)
                     ltac:(intros; apply Hbefore; by right)).
      simpl.
      destruct (ChainlistDataSource.loadEntries parseInt (before ++ _)) as [cs|]; [|done].
      simpl. assert (parseInt k ≠ Num id) as Hk by (apply (Hbefore (k, JArray l)); left).
      destruct (parseInt k) as [z| | |]; simpl; try exact IH.
      rewrite bool_decide_eq_false_2 by congruence. exact IH. }
  split; [done|]. intros Hin Hvalid. rewrite Hserved.
  apply list_elem_of_omap. exists (JString u). split; [done|]. by apply keepUrl_Some.
Qed.

(** X13. One chain whose value is not an array (a string, an object, null)
    makes [loadData] drop the whole document: the whitelist is empty and
    [getRpcUrls] answers [] for every chain. *)
Theorem loadData_malformed_entry (jsonData rpcs : Json) (key : string) (v : Json) :
  js_get jsonData "rpcs" = Some rpcs →
  js_truthy (Some rpcs) = true →
  (key, v) ∈ ChainlistDataSource.Object_entries rpcs →
  (∀ urls, v ≠ JArray urls) →
  loadData jsonData = [] ∧
  ∀ id, ChainlistDataSource.getLoadedRpcUrls (loadData jsonData) id = [].
Proof.
  intros Hrpcs Htruthy Hin Hbad.
  assert (loadData jsonData = []) as Hempty.
  { unfold loadData, ChainlistDataSource.loadData. rewrite Hrpcs, Htruthy. simpl.
    fold loadEntries. by rewrite (loadEntries_None _ (key, v)). }
  split; [done|]. intros id. by rewrite Hempty.
Qed.
End WhitelistFacts.

Lemma getRpcUrls_after_loadData_witness :
  "https://A" ∈ ChainlistDataSource.getLoadedRpcUrls
                  (ChainlistDataSource.loadData sampleParseInt sampleWhitelist) 100 ∧
  validUrl "https://A".
Proof.
  assert ("https://A" ∈ ChainlistDataSource.getLoadedRpcUrls
                          (ChainlistDataSource.loadData sampleParseInt sampleWhitelist) 100)
    as Hin by (vm_compute; left).
  split; [exact Hin|].
  by destruct (getRpcUrls_after_loadData sampleParseInt sampleWhitelist 100 "https://A" Hin).
Defined.

Lemma loadData_keeps_valid_witness :
  ChainlistDataSource.getLoadedRpcUrls
    (ChainlistDataSource.loadData sampleParseInt sampleWhitelist) 100 = ["https://A"].
Proof.
  destruct (loadData_keeps_valid sampleParseInt sampleWhitelist
              (JObject [("100", JArray [JString "https://A"; JString "https://B/${API_KEY}";
                                        JString "http://C"; JNumber 7])])
              100 "100"
              [JString "https://A"; JString "https://B/${API_KEY}"; JString "http://C";
               JNumber 7] [] [] "https://A") as (-> & _); try reflexivity.
  - intros entry Hin. apply list_elem_of_singleton in Hin as ->. by eexists.
  - by intros entry ?%elem_of_nil.
Defined.

Lemma loadData_malformed_entry_witness :
  ChainlistDataSource.getLoadedRpcUrls
    (ChainlistDataSource.loadData sampleParseInt brokenWhitelist) 100 = [].
Proof.
  destruct (loadData_malformed_entry sampleParseInt brokenWhitelist
              (JObject [("100", JArray [JString "https://A"]); ("137", JString "https://P")])
              "137" (JString "https://P")) as (_ & Hnone); try done.
  right. left.
Defined.

(** ** The selector: where a probe runs, and what it leaves *)

Lemma NoDup_keys_Record_get {V} (obj : JsRecord V) k v :
  NoDup (Object_keys obj) → (k, v) ∈ obj → Record_get obj k = Some v.
Proof.
  unfold Object_keys. induction obj as [|[k0 v0] obj IH]; simpl; intros Hnd Hin.
  - by apply elem_of_nil in Hin.
  - apply NoDup_cons in Hnd as [Hk0 Hnd]. apply elem_of_cons in Hin as [[= -> ->]|Hin].
    + by rewrite decide_True.
    + rewrite decide_False; [by apply IH|]. intros ->. apply Hk0.
      apply list_elem_of_fmap. by exists (k, v).
Qed.

Lemma values_urls_are_keys (obj : LatencyMap) :
  (∀ k r, (k, r) ∈ obj → url r = k) → url <$> Object_values obj = Object_keys obj.
Proof.
  unfold Object_values, Object_keys. induction obj as [|[k r] obj IH]; intros Hwf; [done|].
  rewrite !fmap_cons. simpl. f_equal.
  - apply Hwf. left.
  - apply IH. intros k' r' Hin. apply Hwf. by right.
Qed.

Section SelectorFacts.
Variable PERMIT2_BYTECODE_PREFIX : string.
Variables ToString JSON_stringify : option Json → string.
Variable opts : Options.
Variable env : Environment.

Let testRpcUrls := LatencyTester.testRpcUrls PERMIT2_BYTECODE_PREFIX ToString JSON_stringify.
Let getRankedRpcList :=
  RpcSelector.getRankedRpcList PERMIT2_BYTECODE_PREFIX ToString JSON_stringify opts env.

(** The branches of [getRankedRpcList] that run no probe on an invalid cache:
    a test for the chain is in flight, or the chain has no URL. *)
Lemma getRankedRpcList_waits id st pending :
  let lm := CacheManager.getLatencyMap opts id st in
  let fastest := CacheManager.getFastestRpc opts env id lm.2 in
  RpcSelector.cacheIsValid lm.1 fastest.1 = false →
  ongoingLatencyTests st !! id = Some pending →
  getRankedRpcList id st = (RpcSelector._rankResults (Some pending), fastest.2).
Proof.
  intros lm fastest Hinvalid Hongoing. subst lm fastest.
  unfold getRankedRpcList, RpcSelector.getRankedRpcList.
  pose proof (getLatencyMap_cache_only opts id st) as (_ & _ & _ & Ho1).
  destruct (CacheManager.getLatencyMap opts id st) as [latencyMap0 st1].
  cbn [fst snd] in *.
  pose proof (getFastestRpc_cache_only opts env id st1) as (_ & _ & _ & Ho2).
  destruct (CacheManager.getFastestRpc opts env id st1) as [fastestCachedRpc st2].
  cbn [fst snd] in *. rewrite Hinvalid. cbn [negb]. by rewrite Ho2, Ho1, Hongoing.
Qed.

Lemma getRankedRpcList_no_urls id st :
  let lm := CacheManager.getLatencyMap opts id st in
  let fastest := CacheManager.getFastestRpc opts env id lm.2 in
  RpcSelector.cacheIsValid lm.1 fastest.1 = false →
  ongoingLatencyTests st !! id = None →
  ChainlistDataSource.getRpcUrls opts id = [] →
  getRankedRpcList id st = ([], fastest.2).
Proof.
  intros lm fastest Hinvalid Hongoing Hurls. subst lm fastest.
  unfold getRankedRpcList, RpcSelector.getRankedRpcList.
  pose proof (getLatencyMap_cache_only opts id st) as (_ & _ & _ & Ho1).
  destruct (CacheManager.getLatencyMap opts id st) as [latencyMap0 st1].
  cbn [fst snd] in *.
  pose proof (getFastestRpc_cache_only opts env id st1) as (_ & _ & _ & Ho2).
  destruct (CacheManager.getFastestRpc opts env id st1) as [fastestCachedRpc st2].
  cbn [fst snd] in *. rewrite Hinvalid. cbn [negb]. by rewrite Ho2, Ho1, Hongoing, Hurls.
Qed.

(** One call runs the prober at most once, and then on the URLs of the
    chain. *)
Lemma getRankedRpcList_probeLog id st :
  probeLog (getRankedRpcList id st).2 = probeLog st ∨
  (ChainlistDataSource.getRpcUrls opts id ≠ [] ∧
   probeLog (getRankedRpcList id st).2
   = (probeLog st ++ [ChainlistDataSource.getRpcUrls opts id])%list).
Proof.
  set (lm := CacheManager.getLatencyMap opts id st).
  set (fastest := CacheManager.getFastestRpc opts env id lm.2).
  assert (probeLog fastest.2 = probeLog st) as Hp.
  { pose proof (getLatencyMap_cache_only opts id st) as (_ & _ & Hp1 & _).
    pose proof (getFastestRpc_cache_only opts env id lm.2) as (_ & _ & Hp2 & _).
    subst fastest lm. congruence. }
  destruct (RpcSelector.cacheIsValid lm.1 fastest.1) eqn:Hvalid.
  - left. unfold getRankedRpcList.
    by rewrite (getRankedRpcList_valid PERMIT2_BYTECODE_PREFIX ToString JSON_stringify env
                  opts id st Hvalid).
  - destruct (ongoingLatencyTests st !! id) as [pending|] eqn:Hongoing.
    + left. by rewrite (getRankedRpcList_waits id st pending Hvalid Hongoing).
    + destruct (decide (ChainlistDataSource.getRpcUrls opts id = [])) as [Hurls|Hurls].
      * left. by rewrite (getRankedRpcList_no_urls id st Hvalid Hongoing Hurls).
      * right. split; [done|]. unfold getRankedRpcList.
        rewrite (getRankedRpcList_probes PERMIT2_BYTECODE_PREFIX ToString JSON_stringify env
                   opts id st Hvalid Hongoing Hurls). cbn [snd].
        match goal with
        | |- context [CacheManager.updateChainCache opts env id ?m ?f ?st3] =>
            pose proof (updateChainCache_cache_only opts env id m f st3) as (_ & _ & -> & _)
        end.
        cbn [log_probe probeLog]. fold lm fastest. by rewrite Hp.
Qed.

Lemma fastest_url_is_head (m : LatencyMap) :
  url <$> RpcSelector._findFastestInMap (Some m) = head (RpcSelector._rankResults (Some m)).
Proof.
  unfold RpcSelector._findFastestInMap, RpcSelector._rankResults, RpcSelector.rankedResults.
  rewrite findFastest_leftmost_least, <- head_Array_sort.
  by destruct (Array_sort _ _).
Qed.

(** The results a probe map ranks, seen from the URL list returned. *)
Lemma ranked_url_entry network urls u :
  u ∈ RpcSelector._rankResults (Some (testRpcUrls network urls)) →
  ∃ r, Record_get (testRpcUrls network urls) u = Some r ∧ url r = u ∧
       status r ∈ RpcSelector.ACCEPTABLE_STATUSES ∧ u ∈ urls.
Proof.
  unfold RpcSelector._rankResults. intros Hu.
  apply list_elem_of_fmap in Hu as (r & -> & Hr).
  apply elem_of_rankedResults in Hr as [Hr Hacc].
  unfold Object_values in Hr. apply list_elem_of_fmap in Hr as ([k r'] & -> & Hin).
  simpl in *.
  destruct (testRpcUrls_entry_wellformed PERMIT2_BYTECODE_PREFIX ToString JSON_stringify
              network urls k r' Hin) as [Hurl _].
  exists r'. split_and!; [|done|done|].
  - rewrite Hurl. apply NoDup_keys_Record_get; [|done].
    apply (testRpcUrls_NoDup PERMIT2_BYTECODE_PREFIX ToString JSON_stringify).
  - rewrite Hurl.
    apply (testRpcUrls_keys PERMIT2_BYTECODE_PREFIX ToString JSON_stringify network).
    unfold Object_keys. apply list_elem_of_fmap. by exists (k, r').
Qed.

(** X14. A call of [getRankedRpcList] that probes returns only URLs of the
    whitelist of the chain, each at most once, whatever the probes answer
    and even when the whitelist repeats a URL. *)
Theorem probed_ranking_within_whitelist (id : Z) (st : State) :
  let urls := ChainlistDataSource.getRpcUrls opts id in
  let lm := CacheManager.getLatencyMap opts id st in
  RpcSelector.cacheIsValid lm.1 (CacheManager.getFastestRpc opts env id lm.2).1 = false →
  ongoingLatencyTests st !! id = None →
  (∀ u, u ∈ (getRankedRpcList id st).1 → u ∈ urls) ∧
  NoDup (getRankedRpcList id st).1.
Proof.
  intros urls lm Hinvalid Hongoing.
  destruct (decide (urls = [])) as [Hurls|Hurls].
  { rewrite (getRankedRpcList_no_urls id st Hinvalid Hongoing Hurls). cbn [fst].
    split; [by intros ? ?%elem_of_nil|constructor]. }
  unfold getRankedRpcList.
  rewrite (getRankedRpcList_probes PERMIT2_BYTECODE_PREFIX ToString JSON_stringify env
             opts id st Hinvalid Hongoing Hurls). cbn [fst]. fold urls testRpcUrls.
  set (network := probeNetwork env (length (probeLog st))).
  split.
  - intros u Hu. by apply ranked_url_entry in Hu as (_ & _ & _ & _ & ?).
  - unfold RpcSelector._rankResults, RpcSelector.rankedResults.
    rewrite Array_sort_perm. unfold RpcSelector.validResults.
    eapply sublist_NoDup; [|apply fmap_sublist, sublist_filter].
    rewrite values_urls_are_keys.
    + apply (testRpcUrls_NoDup PERMIT2_BYTECODE_PREFIX ToString JSON_stringify).
    + intros k r Hin.
      by apply (testRpcUrls_entry_wellformed PERMIT2_BYTECODE_PREFIX ToString JSON_stringify
                  network urls).
Qed.

(** What a probing call returns and leaves in the cache. *)
Lemma probing_call_state (id : Z) (st : State) :
  let urls := ChainlistDataSource.getRpcUrls opts id in
  let tested := testRpcUrls (probeNetwork env (length (probeLog st))) urls in
  let lm := CacheManager.getLatencyMap opts id st in
  let fastest := CacheManager.getFastestRpc opts env id lm.2 in
  let first := getRankedRpcList id st in
  disabled opts = false →
  RpcSelector.cacheIsValid lm.1 fastest.1 = false →
  ongoingLatencyTests st !! id = None →
  urls ≠ [] →
  first.1 = RpcSelector._rankResults (Some tested) ∧
  cacheLoaded first.2 = true ∧
  cache first.2 !! id
  = Some {| fastestRpc := url <$> RpcSelector._findFastestInMap (Some tested);
            latencyMap := tested;
            lastTested := Date_now env (clockReads fastest.2) |} ∧
  probeLog first.2 = (probeLog st ++ [urls])%list.
Proof.
  intros urls tested lm fastest first Hd Hinvalid Hongoing Hurls.
  subst first. unfold getRankedRpcList.
  rewrite (getRankedRpcList_probes PERMIT2_BYTECODE_PREFIX ToString JSON_stringify env
             opts id st Hinvalid Hongoing Hurls).
  fold urls testRpcUrls tested lm fastest. cbn [fst snd]. split_and!; [done| | |].
  - by apply updateChainCache_loaded.
  - rewrite updateChainCache_cache by done. by rewrite lookup_insert_eq.
  - match goal with
    | |- context [CacheManager.updateChainCache opts env id ?m ?f ?st3] =>
        pose proof (updateChainCache_cache_only opts env id m f st3) as (_ & _ & -> & _)
    end.
    cbn [log_probe probeLog].
    pose proof (getLatencyMap_cache_only opts id st) as (_ & _ & Hp1 & _).
    pose proof (getFastestRpc_cache_only opts env id lm.2) as (_ & _ & Hp2 & _).
    subst fastest lm. by rewrite Hp2, Hp1.
Qed.

(** X15. Cache consistency: a probing call (cache enabled) leaves for the
    chain the entry made of the probe map it ranked, the first URL of the
    list it returned as fastest URL (null for the empty list), and the clock
    reading of the write. *)
Theorem probe_writes_consistent_entry (id : Z) (st : State) :
  let urls := ChainlistDataSource.getRpcUrls opts id in
  let tested := testRpcUrls (probeNetwork env (length (probeLog st))) urls in
  let lm := CacheManager.getLatencyMap opts id st in
  let fastest := CacheManager.getFastestRpc opts env id lm.2 in
  let first := getRankedRpcList id st in
  disabled opts = false →
  RpcSelector.cacheIsValid lm.1 fastest.1 = false →
  ongoingLatencyTests st !! id = None →
  urls ≠ [] →
  first.1 = RpcSelector._rankResults (Some tested) ∧
  (CacheManager.getRawChainCache opts id first.2).1
  = Some {| fastestRpc := head first.1; latencyMap := tested;
            lastTested := Date_now env (clockReads fastest.2) |}.
Proof.
  intros urls tested lm fastest first Hd Hinvalid Hongoing Hurls.
  destruct (probing_call_state id st Hd Hinvalid Hongoing Hurls)
    as (Hlist & Hloaded & Hentry & _).
  fold urls tested lm fastest first in Hlist, Hloaded, Hentry.
  split; [done|].
  unfold CacheManager.getRawChainCache. cbn [fst].
  rewrite loadCache_when_loaded by done.
  by rewrite Hentry, Hlist, fastest_url_is_head.
Qed.

(** X16. Probe, then hit: after a probing call (cache enabled) that found
    at least one acceptable URL, a call for the same chain that reads the
    clock within the TTL of the entry returns the same list and runs no
    probe. *)
Theorem probe_then_cache_hit (id : Z) (st : State) :
  let urls := ChainlistDataSource.getRpcUrls opts id in
  let lm := CacheManager.getLatencyMap opts id st in
  let fastest := CacheManager.getFastestRpc opts env id lm.2 in
  let first := getRankedRpcList id st in
  let second := getRankedRpcList id first.2 in
  disabled opts = false →
  RpcSelector.cacheIsValid lm.1 fastest.1 = false →
  ongoingLatencyTests st !! id = None →
  (∀ u, u ∈ urls → u ≠ "") →
  first.1 ≠ [] →
  (Date_now env (clockReads first.2) - Date_now env (clockReads fastest.2)
   < cacheTtlMs opts)%Z →
  second.1 = first.1 ∧
  probeLog first.2 = (probeLog st ++ [urls])%list ∧
  probeLog second.2 = probeLog first.2.
Proof.
  intros urls lm fastest first second Hd Hinvalid Hongoing Hnonempty Hfound Hfresh.
  assert (urls ≠ []) as Hurls.
  { intros Hurls. apply Hfound. subst first.
    by rewrite (getRankedRpcList_no_urls id st Hinvalid Hongoing Hurls). }
  destruct (probing_call_state id st Hd Hinvalid Hongoing Hurls)
    as (Hlist & Hloaded & Hentry & Hlog).
  fold urls lm fastest first in Hlist, Hloaded, Hentry, Hlog.
  set (tested := testRpcUrls (probeNetwork env (length (probeLog st))) urls) in *.
  destruct first.1 as [|u rest] eqn:Hfirst; [done|].
  assert (u ∈ RpcSelector._rankResults (Some tested)) as Hu by (rewrite <- Hlist; left).
  apply ranked_url_entry in Hu as (r & Hget & _ & Hacc & Hin).
  rewrite <- (loadCache_when_loaded opts first.2 Hloaded) in Hentry.
  rewrite fastest_url_is_head, <- Hlist in Hentry. cbn [head] in Hentry.
  pose proof (getRankedRpcList_cached PERMIT2_BYTECODE_PREFIX ToString JSON_stringify env
                opts id first.2 _ u r Hd Hentry Hfresh eq_refl (Hnonempty u Hin) Hget Hacc)
    as Hsecond.
  change (RpcSelector.getRankedRpcList PERMIT2_BYTECODE_PREFIX ToString JSON_stringify
            opts env id first.2) with second in Hsecond.
  clearbody second. rewrite Hsecond. cbn [fst snd].
  split_and!; [by rewrite Hlist|done|].
  cbn [read_clock snd probeLog]. apply loadCache_cache_only.
Qed.

Lemma loadCache_idem st :
  CacheManager.loadCache opts (CacheManager.loadCache opts st) = CacheManager.loadCache opts st.
Proof.
  destruct (disabled opts) eqn:Hd.
  - unfold CacheManager.loadCache. by rewrite Hd.
  - by apply loadCache_when_loaded, loadCache_loaded.
Qed.

(** The two reads that open [getRankedRpcList], on a chain that has an
    entry. *)
Lemma reads_on_entry id st c :
  let lm := CacheManager.getLatencyMap opts id st in
  let fastest := CacheManager.getFastestRpc opts env id lm.2 in
  disabled opts = false →
  cache (CacheManager.loadCache opts st) !! id = Some c →
  lm.1 = Some (latencyMap c) ∧
  fastest.1 = (if bool_decide (Date_now env (clockReads st) - lastTested c < cacheTtlMs opts)%Z
               then fastestRpc c else None) ∧
  clockReads fastest.2 = S (clockReads st).
Proof.
  intros lm fastest Hd Hc. subst lm fastest.
  unfold CacheManager.getLatencyMap, CacheManager.getFastestRpc,
    CacheManager.getChainCache, CacheManager.getRawChainCache.
  cbn [fst snd]. rewrite Hd, loadCache_idem, Hc. cbn [read_clock fmap option_fmap option_map].
  rewrite loadCache_clockReads.
  by destruct (bool_decide _).
Qed.

(** ... and on a chain that has none. *)
Lemma reads_on_no_entry id st :
  let lm := CacheManager.getLatencyMap opts id st in
  let fastest := CacheManager.getFastestRpc opts env id lm.2 in
  cache (CacheManager.loadCache opts st) !! id = None →
  lm.1 = None ∧ fastest.2 = CacheManager.loadCache opts st.
Proof.
  intros lm fastest Hc. subst lm fastest.
  unfold CacheManager.getLatencyMap, CacheManager.getFastestRpc,
    CacheManager.getChainCache, CacheManager.getRawChainCache.
  cbn [fst snd]. rewrite loadCache_idem, Hc.
  destruct (disabled opts); [|done].
  split; [done|]. done.
Qed.

(** X17. An entry that cannot be used is replaced: when the entry of the
    chain has expired, or names no fastest URL, or one whose record in its
    map is missing or has a failed status, the call (cache enabled, no test
    in flight, chain with URLs) probes the URLs of the chain, ranks the new
    map, and overwrites the entry with it, stamped with the next clock
    reading. *)
Theorem unusable_entry_is_replaced (id : Z) (st : State) (c : ChainCache) :
  let urls := ChainlistDataSource.getRpcUrls opts id in
  let tested := testRpcUrls (probeNetwork env (length (probeLog st))) urls in
  let first := getRankedRpcList id st in
  disabled opts = false →
  cache (CacheManager.loadCache opts st) !! id = Some c →
  ((cacheTtlMs opts ≤ Date_now env (clockReads st) - lastTested c)%Z ∨
   (∀ f res, fastestRpc c = Some f → Record_get (latencyMap c) f = Some res →
             status res ∈ HARD_FAIL_STATUSES)) →
  ongoingLatencyTests st !! id = None →
  urls ≠ [] →
  first.1 = RpcSelector._rankResults (Some tested) ∧
  probeLog first.2 = (probeLog st ++ [urls])%list ∧
  cache first.2 !! id
  = Some {| fastestRpc := head first.1; latencyMap := tested;
            lastTested := Date_now env (S (clockReads st)) |}.
Proof.
  intros urls tested first Hd Hc Hbad Hongoing Hurls.
  destruct (reads_on_entry id st c Hd Hc) as (Hlm & Hfast & Hclock).
  assert (RpcSelector.cacheIsValid (CacheManager.getLatencyMap opts id st).1
            (CacheManager.getFastestRpc opts env id
               (CacheManager.getLatencyMap opts id st).2).1 = false) as Hinvalid.
  { rewrite Hlm, Hfast. unfold RpcSelector.cacheIsValid.
    destruct Hbad as [Hexpired|Hfailed].
    - by rewrite bool_decide_eq_false_2 by lia.
    - destruct (bool_decide _); [|done].
      destruct (fastestRpc c) as [f|] eqn:Hf; [|done].
      destruct (Record_get (latencyMap c) f) as [res|] eqn:Hres; [|by rewrite andb_false_r].
      specialize (Hfailed f res eq_refl Hres).
      rewrite bool_decide_eq_false_2; [by rewrite andb_false_r|].
      unfold HARD_FAIL_STATUSES, RpcSelector.ACCEPTABLE_STATUSES in *.
      intros Hacc.
      assert (bool_decide (status res ∈ HARD_FAIL_STATUSES)
              && bool_decide (status res ∈ RpcSelector.ACCEPTABLE_STATUSES) = false) as Hboth
        by (by destruct (status res)).
      by rewrite !bool_decide_eq_true_2 in Hboth. }
  destruct (probing_call_state id st Hd Hinvalid Hongoing Hurls)
    as (Hlist & _ & Hentry & Hlog).
  fold urls tested first in Hlist, Hentry, Hlog.
  split_and!; [done|done|].
  by rewrite Hentry, Hclock, Hlist, fastest_url_is_head.
Qed.

(** X18. One test per chain: while a test of the chain is in flight, a call
    that finds no entry of the chain waits for it, returns the ranking of
    its map, and does no more to the state than load the cache: no probe of
    its own, nothing written to the store. *)
Theorem in_flight_test_is_shared (id : Z) (st : State) (pending : LatencyMap) :
  cache (CacheManager.loadCache opts st) !! id = None →
  ongoingLatencyTests st !! id = Some pending →
  getRankedRpcList id st
  = (RpcSelector._rankResults (Some pending), CacheManager.loadCache opts st) ∧
  probeLog (CacheManager.loadCache opts st) = probeLog st ∧
  kv (CacheManager.loadCache opts st) = kv st.
Proof.
  intros Hc Hongoing.
  destruct (reads_on_no_entry id st Hc) as [Hlm Hst].
  split_and!.
  - rewrite <- Hst. apply getRankedRpcList_waits; [|done]. by rewrite Hlm.
  - apply loadCache_cache_only.
  - unfold CacheManager.loadCache. by repeat case_match.
Qed.
End SelectorFacts.

(** ** The manager: what a [send] touches *)


Section ManagerFacts.
Variable PERMIT2_BYTECODE_PREFIX : string.
Variables ToString JSON_stringify : option Json → string.
Variable opts : Options.
Variable env : Environment.
Variable method : string.
Variable params : list Json.

Let executeRpcCall := Permit2RpcManager.executeRpcCall ToString opts.
Let send_loop := Permit2RpcManager.send_loop ToString opts env method params.
Let getRankedRpcList :=
  RpcSelector.getRankedRpcList PERMIT2_BYTECODE_PREFIX ToString JSON_stringify opts env.
Let send id := Permit2RpcManager.send PERMIT2_BYTECODE_PREFIX ToString JSON_stringify
                 opts env id method params.

(** The loop of [send] has no part in the cache manager's state. *)
Lemma send_loop_cache_frame rankedRpcList startIndex iterations lastError st :
  let exit_st := send_loop rankedRpcList startIndex iterations lastError st in
  cacheLoaded exit_st.2 = cacheLoaded st ∧ clockReads exit_st.2 = clockReads st ∧
  kv exit_st.2 = kv st.
Proof.
  revert lastError st. induction iterations as [|i iterations IH]; intros lastError st.
  - done.
  - unfold send_loop in *. cbn [Permit2RpcManager.send_loop]. cbn zeta in *.
    destruct (rankedRpcList !! _) as [[|a u]|]; [apply IH| |apply IH].
    destruct (Permit2RpcManager.executeRpcCall _ _ _) as [e|result]; [|done].
    destruct (IH (Some e) (log_fetch (String a u) st)) as (-> & -> & ->). done.
Qed.

Lemma send_cache_frame id st :
  cache (send id st).2 = cache (getRankedRpcList id st).2 ∧
  cacheLoaded (send id st).2 = cacheLoaded (getRankedRpcList id st).2 ∧
  clockReads (send id st).2 = clockReads (getRankedRpcList id st).2 ∧
  kv (send id st).2 = kv (getRankedRpcList id st).2 ∧
  probeLog (send id st).2 = probeLog (getRankedRpcList id st).2.
Proof.
  destruct (send_selector_frame PERMIT2_BYTECODE_PREFIX ToString JSON_stringify opts env
              method params id st) as (Hp & _ & Hc).
  fold send getRankedRpcList in Hp, Hc. split_and!; [done| | | |done].
  all: destruct (decide ((getRankedRpcList id st).1 = [])) as [Hempty|Hne];
    [ unfold send, Permit2RpcManager.send; fold getRankedRpcList;
      destruct (getRankedRpcList id st) as [r st1]; simpl in *; by rewrite Hempty
    | unfold send;
      rewrite (send_unfold PERMIT2_BYTECODE_PREFIX ToString JSON_stringify opts env
                 method params id st Hne); cbn [snd];
      match goal with
      | |- context [Permit2RpcManager.send_loop ToString opts env method params
                      ?r ?start ?its None ?st2] =>
          pose proof (send_loop_cache_frame r start its None st2) as (Hl & Hk & Hv)
      end;
      unfold send_loop in *; cbn zeta in *;
      first [by rewrite Hl | by rewrite Hk | by rewrite Hv] ].
Qed.

(** What a [send] fetched comes from the ranked list. *)
Lemma send_fetches_from_ranking id st :
  ∃ attempted, fetchLog (send id st).2 = (fetchLog st ++ attempted)%list ∧
               ∀ u, u ∈ attempted → u ∈ (getRankedRpcList id st).1 ∧ u ≠ "".
Proof.
  destruct (getRankedRpcList_frame PERMIT2_BYTECODE_PREFIX ToString JSON_stringify opts env
              id st) as [Hidx Hlog].
  fold getRankedRpcList in Hidx, Hlog.
  destruct (decide ((getRankedRpcList id st).1 = [])) as [Hempty|Hne].
  - exists []. split; [|by intros ? ?%elem_of_nil]. rewrite app_nil_r.
    unfold send, Permit2RpcManager.send. fold getRankedRpcList.
    destruct (getRankedRpcList id st) as [r st1]. simpl in *. by rewrite Hempty.
  - unfold send.
    rewrite (send_unfold PERMIT2_BYTECODE_PREFIX ToString JSON_stringify opts env
               method params id st Hne). cbn [snd]. fold getRankedRpcList.
    match goal with
    | |- context [Permit2RpcManager.send_loop ToString opts env method params
                    ?r ?start ?its None ?st2] =>
        pose proof (send_loop_spec ToString opts env method params r start its None st2)
          as (_ & _ & _ & _ & Hloop);
        set (exit_st := Permit2RpcManager.send_loop ToString opts env method params
                          r start its None st2) in *
    end.
    cbn zeta in Hloop. rewrite visitedUrls_seq in Hloop.
    unfold Permit2RpcManager.roundRobinStart in Hloop.
    cbn [fst snd set_rpcIndexMap fetchLog] in Hloop. rewrite Hlog in Hloop.
    assert (∀ k u, u ∈ take k (attemptOrder (getRankedRpcList id st).1
                                 (default 0 (rpcIndexMap (getRankedRpcList id st).2 !! id)
                                  `mod` length (getRankedRpcList id st).1)) →
                   u ∈ (getRankedRpcList id st).1 ∧ u ≠ "") as Hfrom.
    { intros k u Hu. apply elem_of_take in Hu as (j & Hu & _).
      apply list_elem_of_lookup_2 in Hu. split.
      - eapply elem_of_submseteq; [exact Hu|apply attemptOrder_submseteq].
      - unfold attemptOrder in Hu. by apply list_elem_of_filter in Hu as [? _]. }
    destruct exit_st.1 as [v|lastError].
    + destruct Hloop as (p & Hfetch & _). eexists. split; [exact Hfetch|]. apply Hfrom.
    + destruct Hloop as (Hfetch & _). eexists. split; [exact Hfetch|].
      intros u Hu. apply (Hfrom (length (attemptOrder (getRankedRpcList id st).1
                                (default 0 (rpcIndexMap (getRankedRpcList id st).2 !! id)
                                 `mod` length (getRankedRpcList id st).1)))).
      by rewrite firstn_all.
Qed.


(** X20. When the whitelist is what [loadData] built, the prober is only
    ever handed URLs that start with "https://" and contain no "${": a
    [send] keeps this true of the record of the probes run. *)
Theorem probes_only_valid_urls (parseInt : string → JsNumber) (jsonData : Json)
    (id : Z) (st : State) :
  whitelistData opts
  = ChainlistDataSource.integerChains (ChainlistDataSource.loadData parseInt jsonData) →
  Forall (Forall validUrl) (probeLog st) →
  Forall (Forall validUrl) (probeLog (send id st).2).
Proof.
  intros Hwl Hinv.
  destruct (send_cache_frame id st) as (_ & _ & _ & _ & ->).
  destruct (getRankedRpcList_probeLog PERMIT2_BYTECODE_PREFIX ToString JSON_stringify
              opts env id st) as [Hsame|[_ Hgrow]].
  - fold getRankedRpcList in Hsame. by rewrite Hsame.
  - fold getRankedRpcList in Hgrow. rewrite Hgrow.
    apply Forall_app. split; [done|]. constructor; [|constructor].
    apply Forall_forall. intros u Hu.
    rewrite (getRpcUrls_integerChains opts _ id Hwl) in Hu.
    apply getLoadedRpcUrls_elem in Hu as (c & Hc & _ & Hu).
    by eapply loadData_urls_valid.
Qed.

(** X21. A [send] whose selection had to probe fetches only URLs of the
    whitelist of the chain. *)
Theorem probing_send_fetches_whitelisted (id : Z) (st : State) :
  let lm := CacheManager.getLatencyMap opts id st in
  RpcSelector.cacheIsValid lm.1 (CacheManager.getFastestRpc opts env id lm.2).1 = false →
  ongoingLatencyTests st !! id = None →
  ∃ attempted, fetchLog (send id st).2 = (fetchLog st ++ attempted)%list ∧
               ∀ u, u ∈ attempted → u ∈ ChainlistDataSource.getRpcUrls opts id.
Proof.
  intros lm Hinvalid Hongoing.
  destruct (send_fetches_from_ranking id st) as (attempted & Hfetch & Hfrom).
  exists attempted. split; [done|]. intros u Hu. apply Hfrom in Hu as [Hu _].
  destruct (decide (ChainlistDataSource.getRpcUrls opts id = [])) as [Hurls|Hurls].
  { unfold getRankedRpcList in Hu.
    rewrite (getRankedRpcList_no_urls PERMIT2_BYTECODE_PREFIX ToString JSON_stringify
               opts env id st Hinvalid Hongoing Hurls) in Hu.
    by apply elem_of_nil in Hu. }
  unfold getRankedRpcList in Hu.
  rewrite (getRankedRpcList_probes PERMIT2_BYTECODE_PREFIX ToString JSON_stringify env
             opts id st Hinvalid Hongoing Hurls) in Hu. cbn [fst] in Hu.
  by apply ranked_url_entry in Hu as (_ & _ & _ & _ & ?).
Qed.

(** X22. Failed attempts are not fed back: on a chain whose entry is usable
    and stays within its TTL, whatever the endpoints answer to a [send], the
    cache is as the selection of that [send] left it, and the next selection
    returns the same ranked list again, its failed URLs included, without a
    probe. *)
Theorem failed_attempts_leave_ranking (id : Z) (st : State) (c : ChainCache)
    (f : string) (res : LatencyTestResult) :
  let after := (send id st).2 in
  disabled opts = false →
  cache (CacheManager.loadCache opts st) !! id = Some c →
  (Date_now env (S (clockReads st)) - lastTested c < cacheTtlMs opts)%Z →
  (Date_now env (clockReads st) - lastTested c < cacheTtlMs opts)%Z →
  fastestRpc c = Some f → f ≠ "" →
  Record_get (latencyMap c) f = Some res →
  status res ∈ RpcSelector.ACCEPTABLE_STATUSES →
  (getRankedRpcList id st).1 = RpcSelector._rankResults (Some (latencyMap c)) ∧
  cache after = cache (CacheManager.loadCache opts st) ∧
  (getRankedRpcList id after).1 = RpcSelector._rankResults (Some (latencyMap c)) ∧
  probeLog (getRankedRpcList id after).2 = probeLog st.
Proof.
  intros after Hd Hc Hfresh' Hfresh Hf Hne Hres Hacc.
  pose proof (getRankedRpcList_cached PERMIT2_BYTECODE_PREFIX ToString JSON_stringify env
                opts id st c f res Hd Hc Hfresh Hf Hne Hres Hacc) as Hfirst.
  fold getRankedRpcList in Hfirst.
  destruct (send_cache_frame id st) as (Hcache & Hloaded & Hclock & _ & Hprobe).
  fold after in Hcache, Hloaded, Hclock, Hprobe.
  rewrite Hfirst in Hcache, Hloaded, Hclock, Hprobe.
  cbn [snd read_clock cache cacheLoaded clockReads probeLog] in Hcache, Hloaded, Hclock, Hprobe.
  rewrite loadCache_clockReads in Hclock.
  rewrite (loadCache_loaded opts st Hd) in Hloaded.
  assert (probeLog (CacheManager.loadCache opts st) = probeLog st) as Hp0
    by apply loadCache_cache_only.
  assert (cache (CacheManager.loadCache opts after) !! id = Some c) as Hc'
    by (by rewrite (loadCache_when_loaded opts after Hloaded), Hcache).
  rewrite <- Hclock in Hfresh'.
  pose proof (getRankedRpcList_cached PERMIT2_BYTECODE_PREFIX ToString JSON_stringify env
                opts id after c f res Hd Hc' Hfresh' Hf Hne Hres Hacc) as Hsecond.
  fold getRankedRpcList in Hsecond.
  split_and!; [by rewrite Hfirst|done|by rewrite Hsecond|].
  rewrite Hsecond. cbn [snd read_clock probeLog].
  rewrite (loadCache_when_loaded opts after Hloaded). by rewrite Hprobe, Hp0.
Qed.

(** X23. [executeRpcCall] returns exactly when the endpoint answered with a
    2xx status and a JSON value other than null whose [error] member is
    absent or falsy; what it returns is the [result] member of that value,
    undefined when there is none. Everything else is thrown. *)
Theorem executeRpcCall_returns_iff (o : FetchOutcome) (v : option Json) :
  executeRpcCall o = inr v ↔
  ∃ r body, o = FetchResponds r ∧ resp_ok r = true ∧ resp_json r = inr body ∧
            body ≠ JNull ∧ js_truthy (js_get body "error") = false ∧
            v = js_get body "result".
Proof.
  unfold executeRpcCall, Permit2RpcManager.executeRpcCall. split.
  - destruct o as [e|r].
    + by destruct (String.eqb (name e) "AbortError").
    + destruct (resp_ok r) eqn:Hok; simpl.
      * destruct (resp_json r) as [e|body] eqn:Hbody.
        { by destruct (String.eqb (name e) "AbortError"). }
        destruct body; try done;
          (destruct (js_truthy (js_get _ "error")) eqn:Herr; [done|]);
          intros [= <-]; eexists r, _; by split_and!.
      * done.
  - intros (r & body & -> & Hok & Hbody & Hnull & Herr & ->).
    rewrite Hok, Hbody. simpl. destruct body; try done; by rewrite Herr.
Qed.
End ManagerFacts.

Lemma probed_ranking_within_whitelist_witness :
  NoDup (RpcSelector.getRankedRpcList samplePrefix sampleToString sampleToString
           sampleOptions healthyEnv 100 initialState).1.
Proof.
  apply (probed_ranking_within_whitelist samplePrefix sampleToString sampleToString
           sampleOptions healthyEnv 100 initialState); reflexivity.
Defined.

Lemma probe_writes_consistent_entry_witness :
  let first := RpcSelector.getRankedRpcList samplePrefix sampleToString sampleToString
                 sampleOptions healthyEnv 100 initialState in
  first.1 = sampleUrls ∧
  fastestRpc <$> (CacheManager.getRawChainCache sampleOptions 100 first.2).1
  = Some (Some "https://A").
Proof.
  intros first.
  destruct (probe_writes_consistent_entry samplePrefix sampleToString sampleToString
              sampleOptions healthyEnv 100 initialState) as [Hlist Hentry];
    [reflexivity|reflexivity|reflexivity|vm_compute; discriminate|].
  fold first in Hlist, Hentry. split; [reflexivity|].
  rewrite Hentry. reflexivity.
Defined.

Lemma probe_then_cache_hit_witness :
  let first := RpcSelector.getRankedRpcList samplePrefix sampleToString sampleToString
                 sampleOptions healthyEnv 100 initialState in
  let second := RpcSelector.getRankedRpcList samplePrefix sampleToString sampleToString
                  sampleOptions healthyEnv 100 first.2 in
  second.1 = first.1 ∧ probeLog second.2 = [sampleUrls].
Proof.
  intros first second.
  destruct (probe_then_cache_hit samplePrefix sampleToString sampleToString
              sampleOptions healthyEnv 100 initialState) as (Hsame & Hone & Hnone);
    [reflexivity|reflexivity|reflexivity| | | |].
  - intros u Hu. apply list_elem_of_In in Hu. vm_compute in Hu.
    decompose [or] Hu; subst; done.
  - vm_compute. discriminate.
  - vm_compute. reflexivity.
  - fold first second in Hsame, Hone, Hnone. split; [exact Hsame|].
    rewrite Hnone, Hone. reflexivity.
Defined.

Lemma unusable_entry_is_replaced_witness :
  let st := set_kv (KvHolds (Some {[ 100%Z := staleEntry ]})) initialState in
  let first := RpcSelector.getRankedRpcList samplePrefix sampleToString sampleToString
                 sampleOptions lateEnv 100 st in
  probeLog first.2 = [sampleUrls] ∧
  lastTested <$> cache first.2 !! 100%Z = Some 7204001%Z.
Proof.
  intros st first.
  destruct (unusable_entry_is_replaced samplePrefix sampleToString sampleToString
              sampleOptions lateEnv 100 st staleEntry) as (_ & Hlog & Hentry);
    [reflexivity|reflexivity| |reflexivity|vm_compute; discriminate|].
  - left. vm_compute. discriminate.
  - fold first in Hlog, Hentry. split; [exact Hlog|]. rewrite Hentry. reflexivity.
Defined.

Lemma in_flight_test_is_shared_witness :
  let st := set_ongoingLatencyTests {[ 100%Z := sampleMap ]} initialState in
  (RpcSelector.getRankedRpcList samplePrefix sampleToString sampleToString
     sampleOptions healthyEnv 100 st).1 = ["https://A"] ∧
  probeLog (RpcSelector.getRankedRpcList samplePrefix sampleToString sampleToString
              sampleOptions healthyEnv 100 st).2 = [].
Proof.
  intros st.
  destruct (in_flight_test_is_shared samplePrefix sampleToString sampleToString
              sampleOptions healthyEnv 100 st sampleMap) as (Hcall & Hlog & _);
    [reflexivity|reflexivity|].
  rewrite Hcall. cbn [fst snd]. split; [reflexivity|exact Hlog].
Defined.


Lemma probes_only_valid_urls_witness :
  let loaded := withWhitelist
                  (ChainlistDataSource.integerChains
                     (ChainlistDataSource.loadData sampleParseInt sampleWhitelist))
                  sampleOptions in
  Forall (Forall validUrl)
    (probeLog (Permit2RpcManager.send samplePrefix sampleToString sampleToString loaded
                 healthyEnv 100 "eth_chainId" [] initialState).2).
Proof.
  intros loaded.
  apply (probes_only_valid_urls samplePrefix sampleToString sampleToString loaded
           healthyEnv "eth_chainId" [] sampleParseInt sampleWhitelist 100 initialState);
    [reflexivity|constructor].
Defined.

Lemma probing_send_fetches_whitelisted_witness :
  ∃ attempted,
    fetchLog (Permit2RpcManager.send samplePrefix sampleToString sampleToString
                sampleOptions downEnv 100 "eth_chainId" [] initialState).2
    = attempted ∧
    ∀ u, u ∈ attempted → u ∈ sampleUrls.
Proof.
  destruct (probing_send_fetches_whitelisted samplePrefix sampleToString sampleToString
              sampleOptions downEnv "eth_chainId" [] 100 initialState)
    as (attempted & Hfetch & Hin); [reflexivity|reflexivity|].
  exists attempted. split; [exact Hfetch|exact Hin].
Defined.

Lemma failed_attempts_leave_ranking_witness :
  let st := set_kv (KvHolds (Some {[ 100%Z := staleEntry ]})) initialState in
  let after := (Permit2RpcManager.send samplePrefix sampleToString sampleToString
                  sampleOptions downEnv 100 "eth_chainId" [] st).2 in
  fetchLog after = ["https://A"] ∧
  (RpcSelector.getRankedRpcList samplePrefix sampleToString sampleToString
     sampleOptions downEnv 100 after).1 = ["https://A"].
Proof.
  intros st after.
  destruct (failed_attempts_leave_ranking samplePrefix sampleToString sampleToString
              sampleOptions downEnv "eth_chainId" [] 100 st staleEntry "https://A"
              {| url := "https://A"; latency := Finite 42; status := ok; error := None |})
    as (_ & _ & Hagain & _);
    [reflexivity|reflexivity|reflexivity|reflexivity|reflexivity|discriminate|reflexivity
    |left|].
  fold after in Hagain. split; [reflexivity|]. rewrite Hagain. reflexivity.
Defined.
